(** * fetch-ui: the component registry and the CLI entry point

    A shallow embedding of the registry package
    ([packages/registry/src]: the filesystem storage provider, the
    components controller, the error middleware and the router) and of
    the CLI entry point ([packages/cli/src/cli/index.ts]), followed by
    the properties the design document states about them.

    Platform functions the TypeScript code calls (Node's [path] and
    [fs/promises], [zod], [JSON], [parseInt], [Array.prototype.sort])
    are modelled by executable definitions; each says what it stands
    for. *)

From Stdlib Require Import String Ascii List ZArith Bool Lia Arith.
Import ListNotations.
Open Scope string_scope.
Open Scope list_scope.

(* ===================================================================== *)
(** * JSON values *)
(* ===================================================================== *)

Module Json.

(** The values [JSON.parse] produces.  Object fields are kept in
    insertion order; a key occurs once (a JavaScript object).  Numbers
    are the integers the registry computes with ([page], [total]). *)
#[warnings="-register-all"] Inductive json : Type :=
| JNull
| JBool (b : bool)
| JNum (n : Z)
| JStr (s : string)
| JArr (items : list json)
| JObj (fields : list (string * json)).

(** [o[key]] on the fields of an object: [None] is [undefined]. *)
Fixpoint field (key : string) (fields : list (string * json)) : option json :=
  match fields with
  | [] => None
  | (k, v) :: rest => if k =? key then Some v else field key rest
  end.

(** An object literal [{k1: v1, ...}] whose values may be [undefined]:
    both [zod] and [JSON.stringify] treat such a property as absent. *)
Fixpoint defined (props : list (string * option json)) : list (string * json) :=
  match props with
  | [] => []
  | (k, Some v) :: rest => (k, v) :: defined rest
  | (_, None) :: rest => defined rest
  end.

Definition obj (props : list (string * option json)) : json :=
  JObj (defined props).

(** A [Buffer].  The registry only ever decodes buffers with
    [JSON.parse(buf.toString())] and produces them with
    [Buffer.from(JSON.stringify(value))], so a buffer is modelled by
    what it decodes to: [JsonText j] is the JSON text of [j], [Bytes s]
    is any content that is not JSON text. *)
Inductive buffer : Type :=
| JsonText (j : json)
| Bytes (s : string).

End Json.
Export Json.

(* ===================================================================== *)
(** * Exceptions *)
(* ===================================================================== *)

Module Js.

(** The [code] of a Node [ErrnoException]. *)
Inductive errno : Type := ENOENT | ENOTDIR | EISDIR | EEXIST.

Definition errno_name (e : errno) : string :=
  match e with
  | ENOENT => "ENOENT"
  | ENOTDIR => "ENOTDIR"
  | EISDIR => "EISDIR"
  | EEXIST => "EEXIST"
  end.

(** What the registry code can throw.  [APIError] is the class of
    [errors.ts]: [constructor(public code: string, message: string)]. *)
Inductive exn : Type :=
| ZodError
| APIError (code : string) (message : string)
| ErrnoException (code : errno)
| SyntaxError
| TypeError.

(** [error.code]; [None] is [undefined]. *)
Definition code_of (e : exn) : option string :=
  match e with
  | APIError code _ => Some code
  | ErrnoException c => Some (errno_name c)
  | ZodError | SyntaxError | TypeError => None
  end.

Inductive outcome (A : Type) : Type :=
| Return (a : A)
| Throw (e : exn).
Arguments Return {A} a.
Arguments Throw {A} e.

(** [JSON.parse(buffer.toString())]. *)
Definition JSON_parse (data : buffer) : outcome json :=
  match data with
  | JsonText j => Return j
  | Bytes _ => Throw SyntaxError
  end.

(** [Buffer.from(JSON.stringify(value))]. *)
Definition JSON_stringify (value : json) : buffer := JsonText value.

(** Property access [v.key] where [v] may be [undefined] ([None]).
    Reading a property of [undefined] or [null] throws a [TypeError];
    on a primitive or an array the keys used by the registry
    ([metadata], [name], [version], [description], [tags]) are
    [undefined]. *)
Definition prop (v : option json) (key : string) : outcome (option json) :=
  match v with
  | None | Some JNull => Throw TypeError
  | Some (JObj fields) => Return (field key fields)
  | Some _ => Return None
  end.

Definition is_space (c : ascii) : bool :=
  match nat_of_ascii c with
  | 9 | 10 | 11 | 12 | 13 | 32 => true
  | _ => false
  end.

Fixpoint skip_spaces (s : string) : string :=
  match s with
  | String c rest => if is_space c then skip_spaces rest else s
  | EmptyString => s
  end.

Definition digit_value (radix : Z) (c : ascii) : option Z :=
  (let n := Z.of_nat (nat_of_ascii c) in
   let v := if (48 <=? n) && (n <=? 57) then Some (n - 48)
            else if (97 <=? n) && (n <=? 102) then Some (n - 87)
            else if (65 <=? n) && (n <=? 70) then Some (n - 55)
            else None in
   match v with
   | Some d => if d <? radix then Some d else None
   | None => None
   end)%Z.

(** The value of the longest prefix of digits; [acc] is [None] until a
    digit has been read. *)
Fixpoint digits (radix : Z) (acc : option Z) (s : string) : option Z :=
  match s with
  | EmptyString => acc
  | String c rest =>
      match digit_value radix c with
      | Some d =>
          digits radix
            (Some (match acc with Some a => a * radix + d | None => d end)%Z)
            rest
      | None => acc
      end
  end.

(** [parseInt(input)] without a radix; [None] is [NaN].  An absent
    query parameter is [undefined], whose string form has no digits. *)
Definition parseInt (input : option string) : option Z :=
  match input with
  | None => None
  | Some s =>
      let s := skip_spaces s in
      let '(negative, s) :=
        match s with
        | String "-"%char rest => (true, rest)
        | String "+"%char rest => (false, rest)
        | _ => (false, s)
        end in
      let '(radix, s) :=
        match s with
        | String "0"%char (String "x"%char rest) => (16%Z, rest)
        | String "0"%char (String "X"%char rest) => (16%Z, rest)
        | _ => (10%Z, s)
        end in
      match digits radix None s with
      | Some n => Some (if negative then (- n)%Z else n)
      | None => None
      end
  end.

(** [parseInt(input) || fallback]: [NaN] and [0] are falsy. *)
Definition parseInt_or (input : option string) (fallback : Z) : Z :=
  match parseInt input with
  | Some n => if (n =? 0)%Z then fallback else n
  | None => fallback
  end.

(** [Array.prototype.slice(start, end)]. *)
Definition slice {A : Type} (l : list A) (start finish : Z) : list A :=
  let len := Z.of_nat (List.length l) in
  let clamp (i : Z) :=
    (if i <? 0 then Z.max (len + i) 0 else Z.min i len)%Z in
  let k := clamp start in
  let fin := clamp finish in
  firstn (Z.to_nat (fin - k)) (skipn (Z.to_nat k) l).

(** [Array.prototype.sort()] on strings: ascending by code units
    (here: bytes), stable. *)
Fixpoint insert_sorted (x : string) (l : list string) : list string :=
  match l with
  | [] => [x]
  | y :: rest =>
      if String.ltb x y then x :: l else y :: insert_sorted x rest
  end.

Definition sort (l : list string) : list string :=
  fold_right insert_sorted [] l.

End Js.
Export Js.

(* ===================================================================== *)
(** * Node's [path] module (POSIX) *)
(* ===================================================================== *)

Module Path.

Definition slash : ascii := "/"%char.

(** The segments between slashes: ["a/b"] gives [["a"; "b"]], [""]
    gives [[""]], ["/a/"] gives [[""; "a"; ""]]. *)
Fixpoint split (s : string) : list string :=
  match s with
  | EmptyString => [EmptyString]
  | String c rest =>
      if Ascii.eqb c slash then EmptyString :: split rest
      else match split rest with
           | seg :: segs => String c seg :: segs
           | [] => [String c EmptyString]
           end
  end.

(** Node's [normalizeString], segment by segment.  [stack] holds the
    segments kept so far, last first.  Empty and ["."] segments are
    dropped; [".."] removes the last kept segment, and where there is
    none (or it is itself [".."]) it is kept only if
    [allowAboveRoot]. *)
Fixpoint normalizeString (allowAboveRoot : bool) (stack segs : list string)
  : list string :=
  match segs with
  | [] => rev stack
  | seg :: rest =>
      if (seg =? "") || (seg =? ".") then
        normalizeString allowAboveRoot stack rest
      else if seg =? ".." then
        match stack with
        | top :: below =>
            if top =? ".." then
              normalizeString allowAboveRoot
                (if allowAboveRoot then ".." :: stack else stack) rest
            else normalizeString allowAboveRoot below rest
        | [] =>
            normalizeString allowAboveRoot
              (if allowAboveRoot then [".."] else []) rest
        end
      else normalizeString allowAboveRoot (seg :: stack) rest
  end.

Definition isAbsolute (p : string) : bool :=
  match p with
  | String c _ => Ascii.eqb c slash
  | EmptyString => false
  end.

Fixpoint trailingSeparator (p : string) : bool :=
  match p with
  | EmptyString => false
  | String c EmptyString => Ascii.eqb c slash
  | String _ rest => trailingSeparator rest
  end.

(** [segs.join('/')]. *)
Definition render (segs : list string) : string := String.concat "/" segs.

(** [path.normalize]. *)
Definition normalize (p : string) : string :=
  if p =? "" then "."
  else
    let body := render (normalizeString (negb (isAbsolute p)) [] (split p)) in
    if body =? "" then
      (if isAbsolute p then "/" else if trailingSeparator p then "./" else ".")
    else
      ((if isAbsolute p then "/" else "") ++ body
       ++ (if trailingSeparator p then "/" else ""))%string.

(** [path.join(a, b)]: empty arguments are skipped. *)
Definition join (a b : string) : string :=
  if a =? "" then (if b =? "" then "." else normalize b)
  else if b =? "" then normalize a
  else normalize (a ++ "/" ++ b)%string.

(** The directory entries an absolute path names, from the root. *)
Definition components (p : string) : list string :=
  normalizeString false [] (split p).

Fixpoint strip_common (from to : list string) : list string * list string :=
  match from, to with
  | f :: from', t :: to' =>
      if f =? t then strip_common from' to' else (from, to)
  | _, _ => (from, to)
  end.

(** [path.relative(from, to)] for absolute paths. *)
Definition relative (from to : string) : string :=
  let '(up, down) := strip_common (components from) (components to) in
  render (repeat ".." (List.length up) ++ down).

End Path.

(* ===================================================================== *)
(** * Node's [fs/promises] on a directory tree *)
(* ===================================================================== *)

Module Fs.

(** A file system: regular files and directories, no links.  The root
    of the tree is the directory ["/"]. *)
#[warnings="-register-all"] Inductive node : Type :=
| File (content : buffer)
| Dir (entries : list (string * node)).

Definition empty : node := Dir [].

Fixpoint lookup (name : string) (entries : list (string * node)) : option node :=
  match entries with
  | [] => None
  | (k, child) :: rest => if k =? name then Some child else lookup name rest
  end.

(** Replace the entry called [name], or add it after the others. *)
Fixpoint set_entry (name : string) (child : node) (entries : list (string * node))
  : list (string * node) :=
  match entries with
  | [] => [(name, child)]
  | (k, old) :: rest =>
      if k =? name then (name, child) :: rest
      else (k, old) :: set_entry name child rest
  end.

(** The entries without the one called [name]. *)
Fixpoint remove_entry (name : string) (entries : list (string * node))
  : list (string * node) :=
  match entries with
  | [] => []
  | (k, old) :: rest =>
      if k =? name then remove_entry name rest
      else (k, old) :: remove_entry name rest
  end.

(** What path resolution finds.  [Missing] is the kernel's [ENOENT]
    (a directory on the way has no such entry), [Blocked] its
    [ENOTDIR] (a regular file is used as a directory). *)
Inductive found : Type :=
| IsFile (content : buffer)
| IsDir (entries : list (string * node))
| Missing
| Blocked.

Fixpoint stat (segs : list string) (n : node) : found :=
  match segs, n with
  | [], File content => IsFile content
  | [], Dir entries => IsDir entries
  | _ :: _, File _ => Blocked
  | seg :: rest, Dir entries =>
      match lookup seg entries with
      | Some child => stat rest child
      | None => Missing
      end
  end.

(** The state of the registry process: the file system it runs on.
    An [IO] computation either returns or throws, and leaves a file
    system behind in both cases. *)
Definition IO (A : Type) : Type := node -> outcome A * node.

Definition ret {A : Type} (a : A) : IO A := fun fs => (Return a, fs).

Definition throw {A : Type} (e : exn) : IO A := fun fs => (Throw e, fs).

Definition bind {A B : Type} (m : IO A) (k : A -> IO B) : IO B :=
  fun fs =>
    match m fs with
    | (Return a, fs') => k a fs'
    | (Throw e, fs') => (Throw e, fs')
    end.

(** [try { m } catch (error) { handler(error) }]. *)
Definition try_catch {A : Type} (m : IO A) (handler : exn -> IO A) : IO A :=
  fun fs =>
    match m fs with
    | (Return a, fs') => (Return a, fs')
    | (Throw e, fs') => handler e fs'
    end.

Definition lift {A : Type} (o : outcome A) : IO A := fun fs => (o, fs).

(** [readFile(path)]. *)
Definition readFile (path : string) : IO buffer :=
  fun fs =>
    match stat (Path.components path) fs with
    | IsFile content =>
        if Path.trailingSeparator path then (Throw (ErrnoException ENOTDIR), fs)
        else (Return content, fs)
    | IsDir _ => (Throw (ErrnoException EISDIR), fs)
    | Missing => (Throw (ErrnoException ENOENT), fs)
    | Blocked => (Throw (ErrnoException ENOTDIR), fs)
    end.

(** The paths below a directory, each relative to it: every entry,
    and under an entry that is a directory its own entries.  (The
    order in which Node reports them is that of the operating
    system.) *)
Fixpoint listing (n : node) : list string :=
  match n with
  | File _ => []
  | Dir entries =>
      flat_map
        (fun entry =>
           fst entry
           :: map (fun sub => (fst entry ++ "/" ++ sub)%string) (listing (snd entry)))
        entries
  end.

(** [readdir(path, { recursive: true })]. *)
Definition readdir (path : string) : IO (list string) :=
  fun fs =>
    match stat (Path.components path) fs with
    | IsDir entries => (Return (listing (Dir entries)), fs)
    | IsFile _ => (Throw (ErrnoException ENOTDIR), fs)
    | Missing => (Throw (ErrnoException ENOENT), fs)
    | Blocked => (Throw (ErrnoException ENOTDIR), fs)
    end.

Fixpoint fresh_dirs (segs : list string) : node :=
  match segs with
  | [] => Dir []
  | seg :: rest => Dir [(seg, fresh_dirs rest)]
  end.

(** The tree after [mkdir -p]: missing directories are created, a
    regular file on the way is [ENOTDIR], at the end [EEXIST]. *)
Fixpoint make_dirs (segs : list string) (n : node) : errno + node :=
  match n with
  | File _ => inl (match segs with [] => EEXIST | _ :: _ => ENOTDIR end)
  | Dir entries =>
      match segs with
      | [] => inr n
      | seg :: rest =>
          match lookup seg entries with
          | Some child =>
              match make_dirs rest child with
              | inr child' => inr (Dir (set_entry seg child' entries))
              | inl e => inl e
              end
          | None => inr (Dir (set_entry seg (fresh_dirs rest) entries))
          end
      end
  end.

(** [mkdir(path, { recursive: true })]. *)
Definition mkdir (path : string) : IO unit :=
  fun fs =>
    match make_dirs (Path.components path) fs with
    | inr fs' => (Return tt, fs')
    | inl e => (Throw (ErrnoException e), fs)
    end.

(** The tree after opening [segs] for writing (create or truncate)
    and storing [content].  [trailing]: the path string ends in a
    slash, which only a directory may answer to. *)
Fixpoint store (segs : list string) (trailing : bool) (content : buffer)
  (n : node) : errno + node :=
  match n with
  | File _ => inl ENOTDIR
  | Dir entries =>
      match segs with
      | [] => inl EISDIR
      | [seg] =>
          match lookup seg entries with
          | Some (Dir _) => inl EISDIR
          | Some (File _) =>
              if trailing then inl ENOTDIR
              else inr (Dir (set_entry seg (File content) entries))
          | None =>
              if trailing then inl EISDIR
              else inr (Dir (set_entry seg (File content) entries))
          end
      | seg :: rest =>
          match lookup seg entries with
          | Some child =>
              match store rest trailing content child with
              | inr child' => inr (Dir (set_entry seg child' entries))
              | inl e => inl e
              end
          | None => inl ENOENT
          end
      end
  end.

(** [writeFile(path, content)]. *)
Definition writeFile (path : string) (content : buffer) : IO unit :=
  fun fs =>
    match store (Path.components path) (Path.trailingSeparator path) content fs with
    | inr fs' => (Return tt, fs')
    | inl e => (Throw (ErrnoException e), fs)
    end.

(** The tree without the regular file at [segs]. *)
Fixpoint remove (segs : list string) (n : node) : errno + node :=
  match n with
  | File _ => inl ENOTDIR
  | Dir entries =>
      match segs with
      | [] => inl EISDIR
      | [seg] =>
          match lookup seg entries with
          | Some (Dir _) => inl EISDIR
          | Some (File _) => inr (Dir (remove_entry seg entries))
          | None => inl ENOENT
          end
      | seg :: rest =>
          match lookup seg entries with
          | Some child =>
              match remove rest child with
              | inr child' => inr (Dir (set_entry seg child' entries))
              | inl e => inl e
              end
          | None => inl ENOENT
          end
      end
  end.

(** [unlink(path)]. *)
Definition unlink (path : string) : IO unit :=
  fun fs =>
    match remove (Path.components path) fs with
    | inr fs' =>
        if Path.trailingSeparator path then (Throw (ErrnoException ENOTDIR), fs)
        else (Return tt, fs')
    | inl e => (Throw (ErrnoException e), fs)
    end.

End Fs.

Declare Scope io_scope.
Delimit Scope io_scope with io.
Notation "x <- m ;; k" := (Fs.bind m (fun x => k))
  (at level 61, m at next level, right associativity) : io_scope.
Notation "m ;; k" := (Fs.bind m (fun _ => k))
  (at level 61, right associativity) : io_scope.

(* ===================================================================== *)
(** * [zod] schemas and [types/component.ts] *)
(* ===================================================================== *)

Module Zod.

(** The schema constructors the registry uses.  A field of [ZObject]
    carries [true] when it is [.optional()]. *)
#[warnings="-register-all"] Inductive schema : Type :=
| ZString
| ZNumber
| ZBoolean
| ZAny
| ZEnum (values : list string)
| ZArray (item : schema)
| ZRecord (value : schema)
| ZObject (shape : list (string * (bool * schema))).

Fixpoint all_some {A : Type} (l : list (option A)) : option (list A) :=
  match l with
  | [] => Some []
  | Some a :: rest =>
      match all_some rest with
      | Some r => Some (a :: r)
      | None => None
      end
  | None :: _ => None
  end.

Section Shape.

(** The fields of an object schema, parsed one by one from the fields
    of the input; [parse] is the parser of the field schemas. *)
Variable parse : schema -> json -> option json.
Variable fields : list (string * json).

Fixpoint parse_shape (shape : list (string * (bool * schema)))
  : option (list (string * json)) :=
  match shape with
  | [] => Some []
  | (key, (optional, zk)) :: shape' =>
      match field key fields with
      | Some v =>
          match parse zk v, parse_shape shape' with
          | Some v', Some rest => Some ((key, v') :: rest)
          | _, _ => None
          end
      | None => if optional then parse_shape shape' else None
      end
  end.

End Shape.

(** [schema.parse(input)]: [Some] of the parsed value, [None] when
    it throws a [ZodError].  An object schema keeps the fields of its
    shape, in the order of the shape, and strips every other key of
    the input; an optional field that is absent stays absent. *)
Fixpoint parse (z : schema) (input : json) {struct z} : option json :=
  match z with
  | ZString => match input with JStr _ => Some input | _ => None end
  | ZNumber => match input with JNum _ => Some input | _ => None end
  | ZBoolean => match input with JBool _ => Some input | _ => None end
  | ZAny => Some input
  | ZEnum values =>
      match input with
      | JStr s => if existsb (String.eqb s) values then Some input else None
      | _ => None
      end
  | ZArray item =>
      match input with
      | JArr items =>
          match all_some (map (parse item) items) with
          | Some parsed => Some (JArr parsed)
          | None => None
          end
      | _ => None
      end
  | ZRecord value =>
      match input with
      | JObj fields =>
          match all_some (map (fun kv => parse value (snd kv)) fields) with
          | Some parsed => Some (JObj (combine (map fst fields) parsed))
          | None => None
          end
      | _ => None
      end
  | ZObject shape =>
      match input with
      | JObj fields =>
          match parse_shape parse fields shape with
          | Some parsed => Some (JObj parsed)
          | None => None
          end
      | _ => None
      end
  end.

Definition required (z : schema) : bool * schema := (false, z).
Definition optional (z : schema) : bool * schema := (true, z).

End Zod.

Module Types.
Import Zod.

(** [ComponentMetadataSchema]. *)
Definition ComponentMetadataSchema : schema :=
  ZObject
    [ ("name", required ZString);
      ("version", required ZString);
      ("description", optional ZString);
      ("author", optional ZString);
      ("license", optional ZString);
      ("repository", optional ZString);
      ("dependencies", optional (ZRecord ZString));
      ("peerDependencies", optional (ZRecord ZString));
      ("style", optional (ZEnum ["default"; "minimal"]));
      ("typescript", optional ZBoolean);
      ("tags", optional (ZArray ZString)) ].

(** [ComponentFileSchema]. *)
Definition ComponentFileSchema : schema :=
  ZObject
    [ ("path", required ZString);
      ("content", required ZString);
      ("type", required
         (ZEnum ["typescript"; "javascript"; "css"; "scss"; "less"; "json"])) ].

(** [ComponentSchema]. *)
Definition ComponentSchema : schema :=
  ZObject
    [ ("metadata", required ComponentMetadataSchema);
      ("files", required (ZArray ComponentFileSchema));
      ("readme", optional ZString);
      ("changelog", optional ZString) ].

(** [ComponentVersionSchema]. *)
Definition ComponentVersionSchema : schema :=
  ZObject
    [ ("version", required ZString);
      ("createdAt", required ZString);
      ("updatedAt", required ZString);
      ("deprecated", optional ZBoolean);
      ("deprecationMessage", optional ZString) ].

(** [ComponentListResponseSchema]. *)
Definition ComponentListResponseSchema : schema :=
  ZObject
    [ ("components", required
         (ZArray
            (ZObject
               [ ("name", required ZString);
                 ("latestVersion", required ZString);
                 ("description", optional ZString);
                 ("tags", optional (ZArray ZString)) ])));
      ("total", required ZNumber);
      ("page", optional ZNumber);
      ("pageSize", optional ZNumber) ].

(** [ComponentDetailResponseSchema]. *)
Definition ComponentDetailResponseSchema : schema :=
  ZObject
    [ ("component", required ComponentSchema);
      ("versions", required (ZArray ComponentVersionSchema)) ].

(** [APIErrorSchema]. *)
Definition APIErrorSchema : schema :=
  ZObject
    [ ("code", required ZString);
      ("message", required ZString);
      ("details", optional ZAny) ].

End Types.

(* ===================================================================== *)
(** * [types/manager.ts] of the CLI package *)
(* ===================================================================== *)

Module ManagerTypes.

(** [InstalledComponentSchema]. *)
Definition InstalledComponentSchema : Zod.schema :=
  Zod.ZObject
    [ ("name", Zod.required Zod.ZString);
      ("version", Zod.required Zod.ZString);
      ("installPath", Zod.required Zod.ZString);
      ("dependencies", Zod.optional (Zod.ZRecord Zod.ZString)) ].

End ManagerTypes.

(* ===================================================================== *)
(** * [storage/interface.ts] *)
(* ===================================================================== *)

Module Storage.

(** [StorageProvider]: the four operations a storage backend offers. *)
Record StorageProvider : Type :=
  { write : string -> buffer -> Fs.IO unit;
    read : string -> Fs.IO buffer;
    list : string -> Fs.IO (Datatypes.list string);
    delete : string -> Fs.IO unit }.

End Storage.

(* ===================================================================== *)
(** * [storage/filesystem.ts] *)
(* ===================================================================== *)

Module FilesystemStorage.
Import Fs.
Local Open Scope io_scope.

(** The directory the storage keeps its files in.  The model takes
    it as the root of the file tree, so every relative path is looked
    up below it. *)
Definition rootDir : string := "/".

Definition write (path : string) (content : buffer) : IO unit :=
  let fullPath := Path.join rootDir path in
  mkdir (Path.join fullPath "..") ;;
  writeFile fullPath content.

Definition read (path : string) : IO buffer :=
  let fullPath := Path.join rootDir path in
  readFile fullPath.

Definition delete (path : string) : IO unit :=
  let fullPath := Path.join rootDir path in
  unlink fullPath.

Definition list (prefix : string) : IO (Datatypes.list string) :=
  let fullPath := Path.join rootDir prefix in
  try_catch
    (entries <- readdir fullPath ;;
     ret (map
            (fun entry =>
               let entryPath := Path.join prefix entry in
               Path.relative rootDir (Path.join rootDir entryPath))
            entries))
    (fun error =>
       if negb (match code_of error with
                | Some code => code =? "ENOENT"
                | None => false
                end)
       then throw error
       else ret []).

End FilesystemStorage.

(* ===================================================================== *)
(** * HTTP requests and responses, [middleware/error.ts] *)
(* ===================================================================== *)

Module Http.

(** A response body: the JSON sent by a handler, or the
    [{ code, message }] object of the error middleware (the [details]
    it adds for a [ZodError] are not modelled). *)
Inductive payload : Type :=
| Data (j : json)
| Failure (code : string) (message : string).

Record Response : Type := { status : Z; body : payload }.

(** The parts of an express request the handlers read. *)
Record Request : Type :=
  { query_page : option string;
    query_pageSize : option string;
    params_name : string;
    params_version : string;
    req_body : json }.

Fixpoint table_get (key : string) (table : list (string * Z)) : option Z :=
  match table with
  | [] => None
  | (k, v) :: rest => if k =? key then Some v else table_get key rest
  end.

(** [errorHandler]. *)
Definition errorHandler (error : exn) : Response :=
  match error with
  | ZodError =>
      {| status := 400;
         body := Failure "VALIDATION_ERROR" "Invalid request data" |}
  | APIError code message =>
      let status :=
        match table_get code
                [ ("COMPONENT_NOT_FOUND", 404%Z);
                  ("VERSION_NOT_FOUND", 404%Z);
                  ("VERSION_CONFLICT", 409%Z) ] with
        | Some s => s
        | None => 500%Z
        end in
      {| status := status; body := Failure code message |}
  | _ =>
      {| status := 500;
         body := Failure "INTERNAL_ERROR" "Internal server error" |}
  end.

End Http.
Export Http.

(* ===================================================================== *)
(** * [controllers/components.ts] *)
(* ===================================================================== *)

Module ComponentsController.
Import Fs Types.
Local Open Scope io_scope.

Section Controller.

(** The provider the container injects. *)
Variable storage : Storage.StorageProvider.

(** A string-valued property inside a template literal.  The two
    places that interpolate a property do so after
    [ComponentSchema.parse], which makes it a string. *)
Definition text (v : option json) : string :=
  match v with
  | Some (JStr s) => s
  | _ => ""
  end.

(** [schema.parse(value)] as a computation. *)
Definition zod_parse (z : Zod.schema) (value : json) : IO json :=
  match Zod.parse z value with
  | Some parsed => ret parsed
  | None => throw ZodError
  end.

(** [for (const x of xs) { acc = body(acc, x) }]. *)
Fixpoint for_of {A B : Type} (xs : Datatypes.list A) (acc : B)
  (body : B -> A -> IO B) : IO B :=
  match xs with
  | [] => ret acc
  | x :: rest => acc' <- body acc x ;; for_of rest acc' body
  end.

(** [`components/${name}/${version}/component.json`]. *)
Definition manifest_path (name version : string) : string :=
  ("components/" ++ name ++ "/" ++ version ++ "/component.json")%string.

Definition list (req : Request) (next : exn -> IO Response) : IO Response :=
  try_catch
    (let page := parseInt_or (query_page req) 1 in
     let pageSize := parseInt_or (query_pageSize req) 10 in
     componentDirs <- Storage.list storage "components" ;;
     components <-
       for_of componentDirs []
         (fun components dir =>
            versions <- Storage.list storage ("components/" ++ dir)%string ;;
            if (0 <? List.length versions)%nat then
              let sorted := sort versions in
              let latestVersion := last sorted "" in
              componentData <- Storage.read storage (manifest_path dir latestVersion) ;;
              component <- lift (JSON_parse componentData) ;;
              metadata <- lift (prop (Some component) "metadata") ;;
              name <- lift (prop metadata "name") ;;
              version <- lift (prop metadata "version") ;;
              description <- lift (prop metadata "description") ;;
              tags <- lift (prop metadata "tags") ;;
              ret (components
                     ++ [obj [ ("name", name);
                               ("latestVersion", version);
                               ("description", description);
                               ("tags", tags) ]])
            else ret components) ;;
     let start := ((page - 1) * pageSize)%Z in
     let paginatedComponents := slice components start (start + pageSize)%Z in
     response <-
       zod_parse ComponentListResponseSchema
         (obj [ ("components", Some (JArr paginatedComponents));
                ("total", Some (JNum (Z.of_nat (List.length components))));
                ("page", Some (JNum page));
                ("pageSize", Some (JNum pageSize)) ]) ;;
     ret {| status := 200; body := Data response |})
    next.

Definition create (req : Request) (next : exn -> IO Response) : IO Response :=
  try_catch
    (component <- zod_parse ComponentSchema (req_body req) ;;
     metadata <- lift (prop (Some component) "metadata") ;;
     name <- lift (prop metadata "name") ;;
     version <- lift (prop metadata "version") ;;
     try_catch
       (Storage.read storage (manifest_path (text name) (text version)) ;;
        throw (APIError "VERSION_CONFLICT" "Version already exists"))
       (fun error =>
          if negb (match code_of error with
                   | Some code => code =? "ENOENT"
                   | None => false
                   end)
          then throw error
          else ret tt) ;;
     Storage.write storage (manifest_path (text name) (text version))
       (JSON_stringify component) ;;
     ret {| status := 201; body := Data component |})
    next.

(** [now] is [new Date().toISOString()]. *)
Definition getDetails (now : string) (req : Request)
  (next : exn -> IO Response) : IO Response :=
  try_catch
    (let name := params_name req in
     versions <- Storage.list storage ("components/" ++ name)%string ;;
     if (List.length versions =? 0)%nat then
       throw (APIError "COMPONENT_NOT_FOUND" "Component not found")
     else
       let sorted := sort versions in
       let latestVersion := last sorted "" in
       (* [sort] works in place and [pop] removes the last element:
          from here on [versions] is the sorted array without it *)
       let versions := removelast sorted in
       componentData <- Storage.read storage (manifest_path name latestVersion) ;;
       component <- lift (JSON_parse componentData) ;;
       let versionDetails :=
         map (fun version =>
                obj [ ("version", Some (JStr version));
                      ("createdAt", Some (JStr now));
                      ("updatedAt", Some (JStr now)) ])
             versions in
       response <-
         zod_parse ComponentDetailResponseSchema
           (obj [ ("component", Some component);
                  ("versions", Some (JArr versionDetails)) ]) ;;
       ret {| status := 200; body := Data response |})
    next.

Definition getVersion (req : Request) (next : exn -> IO Response)
  : IO Response :=
  try_catch
    (let name := params_name req in
     let version := params_version req in
     try_catch
       (componentData <- Storage.read storage (manifest_path name version) ;;
        parsed <- lift (JSON_parse componentData) ;;
        component <- zod_parse ComponentSchema parsed ;;
        ret {| status := 200; body := Data component |})
       (fun error =>
          if match code_of error with
             | Some code => code =? "ENOENT"
             | None => false
             end
          then throw (APIError "VERSION_NOT_FOUND" "Version not found")
          else throw error))
    next.

End Controller.

End ComponentsController.

(* ===================================================================== *)
(** * [middleware/validation.ts], [routes/components.ts], [app.ts] *)
(* ===================================================================== *)

Module App.
Import Fs Types.
Local Open Scope io_scope.

(** [validateComponent]: [continue_] is the next handler of the
    route, [next] the error path. *)
Definition validateComponent (req : Request) (continue_ : IO Response)
  (next : exn -> IO Response) : IO Response :=
  match Zod.parse ComponentSchema (req_body req) with
  | Some _ => continue_
  | None => next ZodError
  end.

(** The routes of [componentsRouter], mounted at [/components]. *)
Inductive route : Type :=
| GET_components                 (* GET  /components *)
| POST_components                (* POST /components *)
| GET_component                  (* GET  /components/:name *)
| GET_component_version.         (* GET  /components/:name/versions/:version *)

(** [app.use(errorHandler)]: what [next(error)] reaches. *)
Definition next (error : exn) : IO Response := ret (errorHandler error).

(** [container.ts]: the [StorageProvider] is the [FilesystemStorage]. *)
Definition storage : Storage.StorageProvider :=
  {| Storage.write := FilesystemStorage.write;
     Storage.read := FilesystemStorage.read;
     Storage.list := FilesystemStorage.list;
     Storage.delete := FilesystemStorage.delete |}.

(** [container.resolve(ComponentsController)]. *)
Definition controller_list := ComponentsController.list storage.
Definition controller_create := ComponentsController.create storage.
Definition controller_getDetails := ComponentsController.getDetails storage.
Definition controller_getVersion := ComponentsController.getVersion storage.

Definition app (now : string) (r : route) (req : Request) : IO Response :=
  match r with
  | GET_components => controller_list req next
  | POST_components =>
      validateComponent req (controller_create req next) next
  | GET_component => controller_getDetails now req next
  | GET_component_version => controller_getVersion req next
  end.

(** Requests, as a client writes them. *)
Definition no_body : json := JObj [].

Definition list_request (page pageSize : option string) : Request :=
  {| query_page := page; query_pageSize := pageSize;
     params_name := ""; params_version := ""; req_body := no_body |}.

Definition publish_request (component : json) : Request :=
  {| query_page := None; query_pageSize := None;
     params_name := ""; params_version := ""; req_body := component |}.

Definition details_request (name : string) : Request :=
  {| query_page := None; query_pageSize := None;
     params_name := name; params_version := ""; req_body := no_body |}.

Definition version_request (name version : string) : Request :=
  {| query_page := None; query_pageSize := None;
     params_name := name; params_version := version; req_body := no_body |}.

End App.

(* ===================================================================== *)
(** * [cli/index.ts] and [cli/logger.ts] *)
(* ===================================================================== *)

Module Cli.

(** What a [catch] clause receives: an [Error] with its message, or
    any other value. *)
Inductive thrown : Type :=
| ErrorObject (message : string)
| OtherValue.

(** The process as the CLI sees it: the lines sent to the console
    (stream, label, message) and the code passed to [process.exit],
    once it has been called. *)
Record Process : Type :=
  { console : list (string * string * string);
    exited : option Z }.

Definition start : Process := {| console := []; exited := None |}.

(** [process.exit(code)] ends the process: nothing runs after it. *)
Definition process_exit (code : Z) (p : Process) : Process :=
  match exited p with
  | Some _ => p
  | None => {| console := console p; exited := Some code |}
  end.

Definition emit (stream label message : string) (p : Process) : Process :=
  match exited p with
  | Some _ => p
  | None =>
      {| console := console p ++ [(stream, label, message)];
         exited := exited p |}
  end.

(** [logger.info] is [console.log(chalk.blue('info'), message)],
    [logger.error] is [console.error(chalk.red('error'), message)]. *)
Definition logger_info (message : string) : Process -> Process :=
  emit "stdout" "info" message.

Definition logger_error (message : string) : Process -> Process :=
  emit "stderr" "error" message.

(** How [await this.program.parseAsync(args)] settles. *)
Inductive settled : Type :=
| Resolved
| Rejected (error : thrown).

Definition handleError (error : thrown) (p : Process) : Process :=
  let p :=
    match error with
    | ErrorObject message => logger_error message p
    | OtherValue => logger_error "An unknown error occurred" p
    end in
  process_exit 1 p.

(** [run]; [parseAsync] is the commander program. *)
Definition run (parseAsync : list string -> Process -> settled * Process)
  (args : list string) (p : Process) : Process :=
  match parseAsync args p with
  | (Resolved, p') => p'
  | (Rejected error, p') => handleError error p'
  end.

(** The exit code of the process once it has ended: the argument of
    [process.exit], or 0 when the program ran to its end. *)
Definition exit_code (p : Process) : Z :=
  match exited p with
  | Some code => code
  | None => 0%Z
  end.

(** The [add] command as [setupCommands] registers it: its action
    logs one line. *)
Definition add_action (component registry : string) (p : Process) : Process :=
  logger_info ("Adding component " ++ component ++ " from " ++ registry
               ++ " registry")%string p.

End Cli.

(* ===================================================================== *)
(** * The dependency resolver of the design (section 4.2) *)
(* ===================================================================== *)

Module Resolver.

(** Modelled from the spec: [ComponentRef], [{name, version}].  The
    repository has no resolver; this module follows sections 3, 4.1
    and 4.2 of the design. *)
Record ComponentRef : Type := { ref_name : string; ref_version : string }.

(** Modelled from the spec: [ComponentManifest], with the component
    and package dependencies it declares (files and metadata play no
    part in resolution). *)
Record ComponentManifest : Type :=
  { name : string;
    version : string;
    dep_components : list ComponentRef;
    dep_packages : list (string * string) }.

(** Modelled from the spec: the failure kinds of the registry and
    resolution tiers (section 7). *)
Inductive Failure : Type :=
| NotFound (ref : ComponentRef)
| CyclicDependency (path : list string)
| IncompatiblePackageVersions (package first second : string).

(** Modelled from the spec: [fetchManifest(name, version)] of the
    Registry Client, over the manifests a registry has published;
    [None] is its [NotFound]. *)
Definition fetchManifest (registry : list ComponentManifest)
  (ref : ComponentRef) : option ComponentManifest :=
  find (fun m => (name m =? ref_name ref) && (version m =? ref_version ref))
    registry.

(** Modelled from the spec: a node waiting in the breadth-first
    queue, with the [visiting] set of its path: the names of its
    ancestors, the root first. *)
Record Item : Type := { item_ref : ComponentRef; visiting : list string }.

(** Modelled from the spec: the bookkeeping kept across the whole
    traversal: the [resolved] map (name to chosen ref), the conflict
    warnings (chosen ref, refused ref), and the manifests of the chosen
    refs in the order they were first visited. *)
Record Progress : Type :=
  { resolved : list (string * ComponentRef);
    warnings : list (ComponentRef * ComponentRef);
    visited : list ComponentManifest }.

(** Modelled from the spec: nothing resolved, nothing visited. *)
Definition start : Progress :=
  {| resolved := []; warnings := []; visited := [] |}.

(** Modelled from the spec: the ref a name was first resolved to. *)
Fixpoint chosen (n : string) (resolved : list (string * ComponentRef))
  : option ComponentRef :=
  match resolved with
  | [] => None
  | (k, ref) :: rest => if k =? n then Some ref else chosen n rest
  end.

(** Modelled from the spec: the version conflict policy, first
    resolved wins and a second, different version is recorded as a
    warning. *)
Definition record (ref : ComponentRef) (m : ComponentManifest)
  (progress : Progress) : Progress :=
  match chosen (ref_name ref) (resolved progress) with
  | None =>
      {| resolved := resolved progress ++ [(ref_name ref, ref)];
         warnings := warnings progress;
         visited := visited progress ++ [m] |}
  | Some first =>
      {| resolved := resolved progress;
         warnings :=
           if ref_version first =? ref_version ref then warnings progress
           else warnings progress ++ [(first, ref)];
         visited := visited progress |}
  end.

(** Modelled from the spec: the part of a visiting path from the
    first occurrence of [n] on, the start of the reported cycle. *)
Fixpoint from_first (n : string) (path : list string) : list string :=
  match path with
  | [] => []
  | x :: rest => if x =? n then path else from_first n rest
  end.

(** Modelled from the spec: one node of the traversal.  A name that
    is already in the [visiting] set of its path fails with
    [CyclicDependency] and the full cycle (from the first occurrence of
    the name back to it); otherwise the manifest is fetched and every
    component dependency it declares is enqueued as a child. *)
Definition visit (registry : list ComponentManifest) (item : Item)
  (progress : Progress) : Failure + (list Item * Progress) :=
  let n := ref_name (item_ref item) in
  if existsb (String.eqb n) (visiting item) then
    inl (CyclicDependency (from_first n (visiting item) ++ [n]))
  else
    match fetchManifest registry (item_ref item) with
    | None => inl (NotFound (item_ref item))
    | Some m =>
        inr (map (fun dep => {| item_ref := dep;
                                visiting := visiting item ++ [n] |})
               (dep_components m),
             record (item_ref item) m progress)
    end.

(** Modelled from the spec: one level of the breadth-first
    traversal, left to right; the children form the next level. *)
Fixpoint visit_level (registry : list ComponentManifest) (level : list Item)
  (progress : Progress) : Failure + (list Item * Progress) :=
  match level with
  | [] => inr ([], progress)
  | item :: rest =>
      match visit registry item progress with
      | inl failure => inl failure
      | inr (children, progress') =>
          match visit_level registry rest progress' with
          | inl failure => inl failure
          | inr (next, progress'') => inr (children ++ next, progress'')
          end
      end
  end.

(** Modelled from the spec: the breadth-first traversal, level by
    level.  [depth] bounds the number of levels; [None] means the bound
    was reached. *)
Fixpoint traverse (depth : nat) (registry : list ComponentManifest)
  (level : list Item) (progress : Progress) : option (Failure + Progress) :=
  match level with
  | [] => Some (inr progress)
  | _ :: _ =>
      match depth with
      | O => None
      | S depth' =>
          match visit_level registry level progress with
          | inl failure => Some (inl failure)
          | inr (next, progress') => traverse depth' registry next progress'
          end
      end
  end.

Section Packages.

(** The combination of two version ranges of a package: [None] when
    they are provably disjoint.  The design leaves the range algebra
    open. *)
Variable combine : string -> string -> option string.

(** Modelled from the spec: the range and the requesters recorded
    for a package. *)
Fixpoint requested (package : string)
  (merged : list (string * (string * string))) : option (string * string) :=
  match merged with
  | [] => None
  | (k, entry) :: rest => if k =? package then Some entry else requested package rest
  end.

(** Modelled from the spec: the recorded range of a package
    replaced by the combined one. *)
Fixpoint replace (package : string) (entry : string * string)
  (merged : list (string * (string * string)))
  : list (string * (string * string)) :=
  match merged with
  | [] => [(package, entry)]
  | (k, old) :: rest =>
      if k =? package then (package, entry) :: rest
      else (k, old) :: replace package entry rest
  end.

(** Modelled from the spec: package dependency merging.  Each package
    keeps its combined range and the component that asked first; two
    disjoint ranges fail with [IncompatiblePackageVersions] naming both
    components. *)
Fixpoint merge_one (component : string) (packages : list (string * string))
  (merged : list (string * (string * string)))
  : Failure + list (string * (string * string)) :=
  match packages with
  | [] => inr merged
  | (package, range) :: rest =>
      match requested package merged with
      | None => merge_one component rest (replace package (range, component) merged)
      | Some (range0, first) =>
          match combine range0 range with
          | Some both =>
              merge_one component rest (replace package (both, first) merged)
          | None => inl (IncompatiblePackageVersions package first component)
          end
      end
  end.

Fixpoint merge_all (manifests : list ComponentManifest)
  (merged : list (string * (string * string)))
  : Failure + list (string * (string * string)) :=
  match manifests with
  | [] => inr merged
  | m :: rest =>
      match merge_one (name m) (dep_packages m) merged with
      | inl failure => inl failure
      | inr merged' => merge_all rest merged'
      end
  end.

(** Modelled from the spec: [ResolutionResult], with the flattened
    component map, the merged package map and the conflict warnings;
    the nodes are the visited manifests in traversal order. *)
Record ResolutionResult : Type :=
  { root : ComponentRef;
    nodes : list ComponentManifest;
    flattenedComponents : list (string * ComponentRef);
    npmPackages : list (string * string);
    conflicts : list (ComponentRef * ComponentRef) }.

(** Modelled from the spec: [resolve(root)].  A path of the traversal
    never repeats a name, so it has at most as many levels as the
    registry has manifests, plus one for the level that finds a
    repetition. *)
Definition resolve (registry : list ComponentManifest) (root_ref : ComponentRef)
  : option (Failure + ResolutionResult) :=
  match traverse (S (List.length registry)) registry
          [{| item_ref := root_ref; visiting := [] |}] start with
  | None => None
  | Some (inl failure) => Some (inl failure)
  | Some (inr progress) =>
      match merge_all (visited progress) [] with
      | inl failure => Some (inl failure)
      | inr merged =>
          Some (inr {| root := root_ref;
                       nodes := visited progress;
                       flattenedComponents := resolved progress;
                       npmPackages :=
                         map (fun entry => (fst entry, fst (snd entry))) merged;
                       conflicts := warnings progress |})
      end
  end.

End Packages.











(** The registry of the design's example: A declares B, B declares C
    and C declares A. *)
Definition component (n : string) (deps : list string) : ComponentManifest :=
  {| name := n; version := "1.0.0";
     dep_components :=
       map (fun d => {| ref_name := d; ref_version := "1.0.0" |}) deps;
     dep_packages := [] |}.

Definition ref_to (n : string) : ComponentRef :=
  {| ref_name := n; ref_version := "1.0.0" |}.

Definition registry_ABC : list ComponentManifest :=
  [component "A" ["B"]; component "B" ["C"]; component "C" ["A"]].


(** Two ranges combine when they are the same. *)
Definition same_range (a b : string) : option string :=
  if a =? b then Some a else None.

End Resolver.

(* ===================================================================== *)
(** * The installation orchestrator of the design (section 4.4) *)
(* ===================================================================== *)

Module Installer.

(** Modelled from the spec: the files of the target project, by
    path.  The repository has no installer; this module follows
    sections 3 and 4.4 of the design. *)
Definition Files : Type := string -> option string.

(** Modelled from the spec: a file written at a path. *)
Definition put (path content : string) (files : Files) : Files :=
  fun p => if p =? path then Some content else files p.

(** Modelled from the spec: a file deleted. *)
Definition remove (path : string) (files : Files) : Files :=
  fun p => if p =? path then None else files p.

(** Modelled from the spec: [StagedFile], an output file written to a
    temporary path beside its target. *)
Record StagedFile : Type :=
  { targetPath : string; content : string; tempPath : string }.

(** Modelled from the spec: the installation-tier failures. *)
Inductive Failure : Type :=
| FileConflict (paths : list string)
| PromotionFailure (target : string).

(** Modelled from the spec: [InstallReport], the files written and the
    merged package map handed to the package manager. *)
Record InstallReport : Type :=
  { written : list string; packages : list (string * string) }.

(** Modelled from the spec: step 1, every staged file is written to
    its temporary path. *)
Fixpoint stage (staged : list StagedFile) (files : Files) : Files :=
  match staged with
  | [] => files
  | s :: rest => stage rest (put (tempPath s) (content s) files)
  end.

(** Modelled from the spec: an atomic rename; it fails when the
    source is not there. *)
Definition rename (from to : string) (files : Files) : option Files :=
  match files from with
  | Some c => Some (remove from (put to c files))
  | None => None
  end.

(** What promotion leaves behind: all files promoted, or a broken
    promotion with the file that failed and the files not promoted
    (the failed one first).  The journal holds, latest first, each
    promoted target and what was there before. *)
Inductive Promotion : Type :=
| Promoted (files : Files) (journal : list (string * option string))
| Broken (files : Files) (journal : list (string * option string))
    (failed : StagedFile) (unpromoted : list StagedFile).

(** Modelled from the spec: step 3, the staged files are promoted one
    after the other by atomic rename; [forced i] forces the rename of
    file [i] to fail. *)
Fixpoint promote (forced : nat -> bool) (i : nat) (staged : list StagedFile)
  (files : Files) (journal : list (string * option string)) : Promotion :=
  match staged with
  | [] => Promoted files journal
  | s :: rest =>
      if forced i then Broken files journal s staged
      else
        match rename (tempPath s) (targetPath s) files with
        | None => Broken files journal s staged
        | Some files' =>
            promote forced (S i) rest files'
              ((targetPath s, files (targetPath s)) :: journal)
        end
  end.

(** Modelled from the spec: rollback of the promoted files, latest
    first: the prior content is restored, or the file deleted if it
    did not exist. *)
Fixpoint rollback (journal : list (string * option string)) (files : Files)
  : Files :=
  match journal with
  | [] => files
  | (target, prior) :: older =>
      rollback older
        match prior with
        | Some c => put target c files
        | None => remove target files
        end
  end.

(** Modelled from the spec: every temp file not promoted is
    deleted. *)
Fixpoint discard (staged : list StagedFile) (files : Files) : Files :=
  match staged with
  | [] => files
  | s :: rest => discard rest (remove (tempPath s) files)
  end.

(** Modelled from the spec: the conflict check, a target that
    exists already. *)
Definition exists_at (files : Files) (path : string) : bool :=
  match files path with Some _ => true | None => false end.

(** Modelled from the spec: [install], from the staged output of the
    transform pipeline on.  Existing targets without [force] fail with
    [FileConflict] before anything is promoted; a promotion that breaks
    is rolled back and fails with [PromotionFailure]. *)
Definition install (npmPackages : list (string * string))
  (staged : list StagedFile) (force : bool) (forced : nat -> bool)
  (files : Files) : (Failure + InstallReport) * Files :=
  let conflicting :=
    filter (fun s => exists_at files (targetPath s)) staged in
  let files1 := stage staged files in
  if negb force && negb (Nat.eqb (List.length conflicting) 0) then
    (inl (FileConflict (map targetPath conflicting)), discard staged files1)
  else
    match promote forced 0 staged files1 [] with
    | Promoted files' _ =>
        (inr {| written := map targetPath staged; packages := npmPackages |},
         files')
    | Broken files' journal failed unpromoted =>
        (inl (PromotionFailure (targetPath failed)),
         discard unpromoted (rollback journal files'))
    end.

(** No temporary path is the target of a staged file. *)
Definition temps_apart (staged : list StagedFile) : bool :=
  forallb
    (fun s =>
       forallb (fun s' => negb (tempPath s =? targetPath s')) staged)
    staged.

(** The prior content the oldest journal entry of [path] holds. *)
Fixpoint oldest (path : string) (journal : list (string * option string))
  : option (option string) :=
  match journal with
  | [] => None
  | (target, prior) :: older =>
      match oldest path older with
      | Some found => Some found
      | None => if target =? path then Some prior else None
      end
  end.

(** The journal only holds targets. *)
Definition journal_of_targets (targets : list string)
  (journal : list (string * option string)) : Prop :=
  forall entry, In entry journal -> In (fst entry) targets.

(** Five files, the third forced to fail, over a project that has
    the second target already. *)
Definition five_files : list StagedFile :=
  map (fun n => {| targetPath := ("src/ui/" ++ n ++ ".tsx")%string;
                   content := ("// " ++ n)%string;
                   tempPath := ("src/ui/." ++ n ++ ".tsx.tmp")%string |})
    ["button"; "card"; "dialog"; "input"; "label"].

Definition project : Files :=
  put "src/ui/card.tsx" "// the old card" (fun _ => None).

Definition third_fails (i : nat) : bool := Nat.eqb i 2.

End Installer.

(* ===================================================================== *)
(** * The vocabulary of the properties *)
(* ===================================================================== *)

(** A segment without a slash. *)
Fixpoint slash_free (s : string) : bool :=
  match s with
  | EmptyString => true
  | String c rest => negb (Ascii.eqb c Path.slash) && slash_free rest
  end.

(** A name a directory entry can have: not empty, no slash, neither
    ["."] nor [".."]. *)
Definition entry_name (s : string) : bool :=
  slash_free s && negb (s =? "") && negb (s =? ".") && negb (s =? "..").

(** The target of a write: not there yet (in a directory that may be
    missing too), or a regular file. *)
Definition writable (segs : list string) (fs : Fs.node) : Prop :=
  Fs.stat segs fs = Fs.Missing \/ exists old, Fs.stat segs fs = Fs.IsFile old.

(** Every directory from the root down to [segs] exists. *)
Definition directories_to (segs : list string) (fs : Fs.node) : Prop :=
  forall k, k <= List.length segs ->
    exists entries, Fs.stat (firstn k segs) fs = Fs.IsDir entries.

(** Something is there: a regular file or a directory. *)
Definition present (f : Fs.found) : Prop :=
  match f with
  | Fs.IsFile _ | Fs.IsDir _ => True
  | Fs.Missing | Fs.Blocked => False
  end.

(** Every name in the tree is one a directory entry can have. *)
Fixpoint well_named (n : Fs.node) : bool :=
  match n with
  | Fs.File _ => true
  | Fs.Dir entries =>
      forallb (fun entry => entry_name (fst entry) && well_named (snd entry))
        entries
  end.

(** A computation that leaves the file system as it found it. *)
Definition read_only {A : Type} (m : Fs.IO A) : Prop :=
  forall fs, snd (m fs) = fs.

(** The name and version a request body declares. *)
Definition declares (body : json) (name version : string) : Prop :=
  exists fields metadata,
    body = JObj fields
    /\ field "metadata" fields = Some (JObj metadata)
    /\ field "name" metadata = Some (JStr name)
    /\ field "version" metadata = Some (JStr version).

(** A manifest with a key [ComponentSchema] does not declare, and a
    store that holds it as version 1.0.0 of [button]. *)
Definition annotated_button : json :=
  JObj [("metadata", JObj [("name", JStr "button"); ("version", JStr "1.0.0")]);
        ("files", JArr []);
        ("reviewedBy", JStr "alice")].

Definition annotated_store : Fs.node :=
  snd (FilesystemStorage.write "components/button/1.0.0/component.json"
         (JSON_stringify annotated_button) Fs.empty).

(** The line [handleError] logs for what was thrown. *)
Definition error_line (error : Cli.thrown) : string * string * string :=
  ("stderr", "error",
   match error with
   | Cli.ErrorObject message => message
   | Cli.OtherValue => "An unknown error occurred"
   end).

(** A program whose command throws [new Error('Test error')]. *)
Definition failing_program (args : list string) (p : Cli.Process)
  : Cli.settled * Cli.Process :=
  (Cli.Rejected (Cli.ErrorObject "Test error"),
   Cli.add_action "button" "local" p).

(** [(name, version)] is published: the store holds its manifest.
    This is the test [create] makes before it writes. *)
Definition published (name version : string) (fs : Fs.node) : bool :=
  match fst (FilesystemStorage.read
               (ComponentsController.manifest_path name version) fs) with
  | Return _ => true
  | Throw _ => false
  end.

(** The directory of one version: the manifest and nothing else. *)
Definition version_dir (n : Fs.node) : bool :=
  match n with
  | Fs.Dir [(file, Fs.File _)] => file =? "component.json"
  | _ => false
  end.

(** The directory of one component: at least one version, each under
    an entry name. *)
Definition component_dir (n : Fs.node) : bool :=
  match n with
  | Fs.Dir (first :: others) =>
      forallb (fun entry => entry_name (fst entry) && version_dir (snd entry))
        (first :: others)
  | _ => false
  end.

(** The store the registry builds when every published name and
    version is an entry name: empty, or
    [components/<name>/<version>/component.json] and nothing else. *)
Definition registry_layout (fs : Fs.node) : bool :=
  match fs with
  | Fs.Dir [] => true
  | Fs.Dir [(dir, Fs.Dir components)] =>
      (dir =? "components")
      && forallb
           (fun entry => entry_name (fst entry) && component_dir (snd entry))
           components
  | _ => false
  end.

(** A component whose version string has a slash in it (the schema
    takes any string), and the store after it has been published. *)
Definition nested_button : json :=
  JObj [("metadata",
         JObj [("name", JStr "button");
               ("version", JStr "1.0.0/component.json")]);
        ("files", JArr [])].

Definition nested_store : Fs.node :=
  snd (App.app "" App.POST_components (App.publish_request nested_button)
         Fs.empty).

(** The store after version 1.0.0 of [button] has been published. *)
Definition button_1_0_0 : json :=
  JObj [("metadata",
         JObj [("name", JStr "button"); ("version", JStr "1.0.0");
               ("description", JStr "A test button component")]);
        ("files",
         JArr [JObj [("path", JStr "index.ts");
                     ("content", JStr "export const Button = () => {}");
                     ("type", JStr "typescript")]])].

Definition button_store : Fs.node :=
  snd (App.app "" App.POST_components (App.publish_request button_1_0_0)
         Fs.empty).

(** The stores the registry can reach from the empty one by
    publishing components under entry names. *)
Inductive built : Fs.node -> Prop :=
| built_empty : built Fs.empty
| built_publish (now name version : string) (req : Request) (fs : Fs.node) :
    built fs ->
    declares (req_body req) name version ->
    entry_name name = true ->
    entry_name version = true ->
    built (snd (App.app now App.POST_components req fs)).

(** No key occurs twice. *)
Fixpoint distinct (keys : list string) : bool :=
  match keys with
  | [] => true
  | k :: rest => negb (existsb (String.eqb k) rest) && distinct rest
  end.

(** Every object schema inside [z] declares each of its keys once (as
    an object literal passed to [z.object] does). *)
Fixpoint distinct_keys (z : Zod.schema) : bool :=
  match z with
  | Zod.ZArray item => distinct_keys item
  | Zod.ZRecord value => distinct_keys value
  | Zod.ZObject shape =>
      distinct (map fst shape)
      && forallb (fun entry => distinct_keys (snd (snd entry))) shape
  | _ => true
  end.

(** The schemas the two packages declare. *)
Definition declared_schemas : list Zod.schema :=
  [ Types.ComponentMetadataSchema; Types.ComponentFileSchema;
    Types.ComponentSchema; Types.ComponentVersionSchema;
    Types.ComponentListResponseSchema; Types.ComponentDetailResponseSchema;
    Types.APIErrorSchema; ManagerTypes.InstalledComponentSchema ].

(** What a computation can end in: whatever it returns satisfies [Q],
    whatever it throws satisfies [E]. *)
Definition ends_in {A : Type} (E : exn -> Prop) (Q : A -> Prop)
  (m : Fs.IO A) : Prop :=
  forall fs, match fst (m fs) with
             | Return a => Q a
             | Throw e => E e
             end.

(** The error responses of the registry. *)
Definition validation_error : Response :=
  {| status := 400; body := Failure "VALIDATION_ERROR" "Invalid request data" |}.

Definition component_not_found : Response :=
  {| status := 404;
     body := Failure "COMPONENT_NOT_FOUND" "Component not found" |}.

Definition version_not_found : Response :=
  {| status := 404; body := Failure "VERSION_NOT_FOUND" "Version not found" |}.

Definition version_conflict : Response :=
  {| status := 409;
     body := Failure "VERSION_CONFLICT" "Version already exists" |}.

Definition internal_error : Response :=
  {| status := 500;
     body := Failure "INTERNAL_ERROR" "Internal server error" |}.

(** The status of a route's success, and the error responses it can
    give. *)
Definition success (r : App.route) : Z :=
  match r with
  | App.POST_components => 201
  | _ => 200
  end.

Definition failures (r : App.route) : list Response :=
  match r with
  | App.GET_components => [validation_error; internal_error]
  | App.POST_components => [validation_error; version_conflict; internal_error]
  | App.GET_component => [validation_error; component_not_found; internal_error]
  | App.GET_component_version =>
      [validation_error; version_not_found; internal_error]
  end.

Definition contract (r : App.route) (response : Response) : Prop :=
  (exists j, response = {| status := success r; body := Data j |})
  \/ In response (failures r).

(** An exception the error middleware turns into one of the route's
    error responses. *)
Definition handled (r : App.route) (e : exn) : Prop :=
  In (errorHandler e) (failures r).

Definition succeeds (r : App.route) (response : Response) : Prop :=
  exists j, response = {| status := success r; body := Data j |}.

(** A provider as the handlers expect one: [list] gives bare names,
    [read] gives the manifest of [button]. *)
Definition two_versions : Storage.StorageProvider :=
  {| Storage.write := fun _ _ => Fs.ret tt;
     Storage.read := fun _ => Fs.ret (JSON_stringify button_1_0_0);
     Storage.list := fun _ => Fs.ret ["1.1.0"; "1.0.0"];
     Storage.delete := fun _ => Fs.ret tt |}.


(* ===================================================================== *)
(** * Properties of the path functions *)
(* ===================================================================== *)

Lemma split_not_nil (s : string) : Path.split s <> [].
Proof.
  induction s as [|c s IH]; simpl; [discriminate|].
  destruct (Ascii.eqb c Path.slash); [discriminate|].
  destruct (Path.split s); discriminate.
Qed.

Lemma split_app_slash (a b : string) :
  Path.split (a ++ "/" ++ b) = Path.split a ++ Path.split b.
Proof.
  induction a as [|c a IH]; simpl.
  - reflexivity.
  - destruct (Ascii.eqb c Path.slash).
    + simpl. now rewrite <- IH.
    + simpl in IH. rewrite IH.
      destruct (Path.split a) as [|seg segs] eqn:E.
      * now apply split_not_nil in E.
      * reflexivity.
Qed.

Lemma split_slash_free (s : string) :
  slash_free s = true -> Path.split s = [s].
Proof.
  induction s as [|c s IH]; simpl; [reflexivity|].
  intros H. apply andb_prop in H as [Hc Hs].
  apply negb_true_iff in Hc. rewrite Hc, (IH Hs). reflexivity.
Qed.

Lemma split_segments_slash_free (s : string) :
  Forall (fun seg => slash_free seg = true) (Path.split s).
Proof.
  induction s as [|c s IH]; simpl.
  - repeat constructor.
  - destruct (Ascii.eqb c Path.slash) eqn:Ec.
    + constructor; [reflexivity | exact IH].
    + destruct (Path.split s) as [|seg segs].
      * repeat constructor. simpl. now rewrite Ec.
      * inversion IH; subst. constructor; [|assumption].
        simpl. now rewrite Ec.
Qed.

Lemma render_cons (seg next : string) (rest : list string) :
  Path.render (seg :: next :: rest)
  = (seg ++ "/" ++ Path.render (next :: rest))%string.
Proof. reflexivity. Qed.

Lemma split_render (segs : list string) :
  segs <> [] ->
  Forall (fun seg => slash_free seg = true) segs ->
  Path.split (Path.render segs) = segs.
Proof.
  induction segs as [|seg rest IH]; [congruence|].
  intros _ H. inversion H as [|? ? Hseg Hrest]; subst.
  destruct rest as [|next rest].
  - simpl. now apply split_slash_free.
  - rewrite render_cons, split_app_slash, split_slash_free by assumption.
    simpl. f_equal. apply IH; [discriminate | assumption].
Qed.

Lemma entry_name_slash_free (s : string) :
  entry_name s = true -> slash_free s = true.
Proof.
  unfold entry_name. intros H.
  repeat (apply andb_prop in H as [H ?]). exact H.
Qed.

Lemma entry_name_kept (s : string) :
  entry_name s = true ->
  (s =? "") || (s =? ".") = false /\ (s =? "..") = false.
Proof.
  unfold entry_name. intros H.
  repeat (apply andb_prop in H as [H ?]).
  repeat match goal with
         | E : negb _ = true |- _ => apply negb_true_iff in E
         end.
  split; [apply orb_false_iff; split|]; assumption.
Qed.

(** Segments that are entry names pass through [normalizeString]
    unchanged. *)
Lemma normalizeString_entry_names (above : bool) (segs stack : list string) :
  Forall (fun seg => entry_name seg = true) segs ->
  Path.normalizeString above stack segs = rev stack ++ segs.
Proof.
  revert stack. induction segs as [|seg rest IH]; intros stack H; simpl.
  - now rewrite app_nil_r.
  - inversion H as [|? ? Hseg Hrest]; subst.
    destruct (entry_name_kept _ Hseg) as [E1 E2]. rewrite E1, E2.
    rewrite IH by assumption. simpl. now rewrite <- app_assoc.
Qed.

Lemma normalizeString_app (above : bool) (xs ys stack : list string) :
  Path.normalizeString above stack (xs ++ ys)
  = Path.normalizeString above (rev (Path.normalizeString above stack xs)) ys.
Proof.
  revert stack. induction xs as [|x xs IH]; intros stack; simpl.
  - now rewrite rev_involutive.
  - destruct ((x =? "") || (x =? ".")); [apply IH|].
    destruct (x =? "..").
    + destruct stack as [|top below].
      * apply IH.
      * destruct (top =? ".."); apply IH.
    + apply IH.
Qed.

(** Without [allowAboveRoot] the result holds entry names only. *)
Lemma normalizeString_output (segs stack : list string) :
  Forall (fun seg => slash_free seg = true) segs ->
  Forall (fun seg => entry_name seg = true) stack ->
  Forall (fun seg => entry_name seg = true)
    (Path.normalizeString false stack segs).
Proof.
  revert stack. induction segs as [|seg rest IH]; intros stack Hs Hst; simpl.
  - now apply Forall_rev.
  - inversion Hs as [|? ? Hseg Hrest]; subst.
    destruct ((seg =? "") || (seg =? ".")) eqn:E1; [now apply IH|].
    destruct (seg =? "..") eqn:E2.
    + destruct stack as [|top below]; [now apply IH|].
      inversion Hst; subst.
      destruct (top =? ".."); now apply IH.
    + apply IH; [assumption|]. constructor; [|assumption].
      apply orb_false_iff in E1 as [E0 E1].
      unfold entry_name. now rewrite Hseg, E0, E1, E2.
Qed.

Lemma components_entry_names (p : string) :
  Forall (fun seg => entry_name seg = true) (Path.components p).
Proof.
  apply normalizeString_output; [apply split_segments_slash_free | constructor].
Qed.

Lemma append_empty_r (s : string) : (s ++ "")%string = s.
Proof. induction s as [|c s IH]; simpl; [reflexivity | now rewrite IH]. Qed.

Lemma append_assoc (a b c : string) :
  ((a ++ b) ++ c)%string = (a ++ (b ++ c))%string.
Proof. induction a as [|x a IH]; simpl; [reflexivity | now rewrite IH]. Qed.

Lemma append_eq_empty (a b : string) :
  (a ++ b)%string = "" -> a = "" /\ b = "".
Proof. destruct a; simpl; [auto | discriminate]. Qed.

Lemma render_eq_empty (segs : list string) :
  Forall (fun seg => entry_name seg = true) segs ->
  Path.render segs = "" -> segs = [].
Proof.
  destruct segs as [|seg rest]; [reflexivity|].
  intros H E. exfalso. inversion H as [|? ? Hseg _]; subst.
  assert (seg = "") as ->.
  { destruct rest; [exact E|].
    rewrite render_cons in E. now apply append_eq_empty in E. }
  discriminate.
Qed.

Lemma components_render (segs : list string) (slash : bool) :
  Forall (fun seg => entry_name seg = true) segs ->
  segs <> [] ->
  Path.components ("/" ++ Path.render segs ++ (if slash then "/" else ""))
  = segs.
Proof.
  intros H Hne. unfold Path.components.
  assert (Forall (fun seg => slash_free seg = true) segs) as Hsf.
  { eapply Forall_impl; [|exact H]. intros. now apply entry_name_slash_free. }
  change ("/" ++ Path.render segs ++ (if slash then "/" else ""))%string
    with ("" ++ "/" ++ (Path.render segs ++ (if slash then "/" else "")))%string.
  rewrite split_app_slash. simpl Path.split at 1. simpl app.
  change (Path.normalizeString false []
            ("" :: Path.split (Path.render segs ++ (if slash then "/" else ""))))
    with (Path.normalizeString false []
            (Path.split (Path.render segs ++ (if slash then "/" else "")))).
  destruct slash.
  - change (Path.render segs ++ "/")%string
      with (Path.render segs ++ "/" ++ "")%string.
    rewrite split_app_slash, split_render by assumption.
    rewrite normalizeString_app.
    rewrite (normalizeString_entry_names false segs []) by assumption.
    simpl. now rewrite rev_involutive.
  - rewrite append_empty_r, split_render by assumption.
    now rewrite normalizeString_entry_names.
Qed.

(** Normalising an absolute path does not change what it names. *)
Lemma components_normalize (q : string) :
  Path.isAbsolute q = true ->
  Path.components (Path.normalize q) = Path.components q.
Proof.
  intros Habs. unfold Path.normalize.
  destruct (q =? "") eqn:Eq.
  { apply String.eqb_eq in Eq. subst. discriminate. }
  rewrite Habs. simpl negb.
  fold (Path.components q).
  pose proof (components_entry_names q) as Hout.
  destruct (Path.render (Path.components q) =? "") eqn:Eb.
  - apply String.eqb_eq in Eb. apply render_eq_empty in Eb; [|assumption].
    now rewrite Eb.
  - apply components_render; [assumption|].
    intros E. rewrite E in Eb. discriminate.
Qed.

Lemma join_rootDir (p : string) :
  Path.join FilesystemStorage.rootDir p
  = if p =? "" then "/" else Path.normalize ("//" ++ p).
Proof. unfold Path.join, FilesystemStorage.rootDir. simpl. now destruct (p =? ""). Qed.

(** [join(rootDir, path)] names the entries [path] names. *)
Lemma components_join_rootDir (p : string) :
  Path.components (Path.join FilesystemStorage.rootDir p) = Path.components p.
Proof.
  rewrite join_rootDir. destruct (p =? "") eqn:E.
  - apply String.eqb_eq in E. now subst.
  - now rewrite components_normalize.
Qed.

Lemma trailingSeparator_app (a b : string) :
  b <> "" ->
  Path.trailingSeparator (a ++ b) = Path.trailingSeparator b.
Proof.
  intros Hb. induction a as [|c a IH]; simpl; [reflexivity|].
  destruct (a ++ b)%string eqn:E.
  - now apply append_eq_empty in E.
  - exact IH.
Qed.

Lemma trailingSeparator_slash_free (s : string) :
  slash_free s = true -> Path.trailingSeparator s = false.
Proof.
  induction s as [|c s IH]; simpl; [reflexivity|].
  intros H. apply andb_prop in H as [Hc Hs]. apply negb_true_iff in Hc.
  destruct s; [exact Hc | now apply IH].
Qed.

Lemma trailingSeparator_render (segs : list string) :
  Forall (fun seg => entry_name seg = true) segs ->
  Path.trailingSeparator (Path.render segs) = false.
Proof.
  induction segs as [|seg rest IH]; [reflexivity|].
  intros H. inversion H as [|? ? Hseg Hrest]; subst.
  destruct rest as [|next rest].
  - simpl. now apply trailingSeparator_slash_free, entry_name_slash_free.
  - rewrite render_cons, !trailingSeparator_app.
    + now apply IH.
    + intros E. apply render_eq_empty in E; [discriminate | assumption].
    + intros E. now apply append_eq_empty in E.
Qed.

Lemma trailingSeparator_normalize (q : string) :
  Path.isAbsolute q = true ->
  Path.components q <> [] ->
  Path.trailingSeparator (Path.normalize q) = Path.trailingSeparator q.
Proof.
  intros Habs Hne. unfold Path.normalize.
  destruct (q =? "") eqn:Eq.
  { apply String.eqb_eq in Eq. subst. discriminate. }
  rewrite Habs. simpl negb. fold (Path.components q).
  pose proof (components_entry_names q) as Hout.
  destruct (Path.render (Path.components q) =? "") eqn:Eb.
  { apply String.eqb_eq in Eb. now apply render_eq_empty in Eb. }
  apply String.eqb_neq in Eb.
  destruct (Path.trailingSeparator q).
  - rewrite !trailingSeparator_app; [reflexivity | discriminate |].
    intros E. now apply append_eq_empty in E.
  - rewrite append_empty_r, trailingSeparator_app by assumption.
    now apply trailingSeparator_render.
Qed.

Lemma trailingSeparator_join_rootDir (p : string) :
  Path.components p <> [] ->
  Path.trailingSeparator (Path.join FilesystemStorage.rootDir p)
  = Path.trailingSeparator p.
Proof.
  intros Hne. rewrite join_rootDir. destruct (p =? "") eqn:E.
  - apply String.eqb_eq in E. now subst.
  - apply String.eqb_neq in E.
    rewrite trailingSeparator_normalize; [| reflexivity | exact Hne].
    now apply (trailingSeparator_app "//").
Qed.

Lemma join_not_empty (a b : string) : Path.join a b <> "".
Proof.
  assert (forall q, Path.normalize q <> "") as Hn.
  { intros q. unfold Path.normalize.
    destruct (q =? ""); [discriminate|].
    destruct (Path.render _ =? "") eqn:Eb.
    - destruct (Path.isAbsolute q); [discriminate|].
      destruct (Path.trailingSeparator q); discriminate.
    - apply String.eqb_neq in Eb. intros E.
      destruct (Path.isAbsolute q); [discriminate|].
      simpl in E. now apply append_eq_empty in E. }
  unfold Path.join.
  destruct (a =? ""); [destruct (b =? ""); [discriminate | apply Hn]|].
  destruct (b =? ""); apply Hn.
Qed.

Lemma normalize_absolute (q : string) :
  Path.isAbsolute q = true -> Path.isAbsolute (Path.normalize q) = true.
Proof.
  intros H. unfold Path.normalize. rewrite H.
  destruct (q =? "") eqn:E.
  { apply String.eqb_eq in E. subst. discriminate. }
  destruct (Path.render _ =? ""); reflexivity.
Qed.

Lemma join_rootDir_absolute (p : string) :
  Path.isAbsolute (Path.join FilesystemStorage.rootDir p) = true.
Proof.
  rewrite join_rootDir. destruct (p =? ""); [reflexivity|].
  now apply normalize_absolute.
Qed.

Lemma isAbsolute_app (a b : string) :
  Path.isAbsolute a = true -> Path.isAbsolute (a ++ b) = true.
Proof. destruct a; simpl; [discriminate | auto]. Qed.

(** [join(fullPath, '..')] names the parent directory. *)
Lemma components_join_parent (full : string) :
  Path.isAbsolute full = true ->
  Path.components (Path.join full "..") = removelast (Path.components full).
Proof.
  intros Habs. unfold Path.join.
  destruct (full =? "") eqn:E.
  { apply String.eqb_eq in E. subst. discriminate. }
  simpl (".." =? ""). cbv iota.
  rewrite components_normalize by now apply isAbsolute_app.
  unfold Path.components. rewrite split_app_slash, normalizeString_app.
  fold (Path.components full).
  pose proof (components_entry_names full) as Hout.
  destruct (Path.components full) as [|s l] eqn:Ec using rev_ind; [reflexivity|].
  rewrite rev_unit, removelast_last. simpl.
  apply Forall_app in Hout as [_ Hs]. inversion Hs as [|? ? Hname _]; subst.
  destruct (entry_name_kept _ Hname) as [_ ->].
  now rewrite rev_involutive.
Qed.

(* ===================================================================== *)
(** * Properties of the file tree *)
(* ===================================================================== *)

Lemma lookup_set_entry_same (name : string) (child : Fs.node)
  (entries : list (string * Fs.node)) :
  Fs.lookup name (Fs.set_entry name child entries) = Some child.
Proof.
  induction entries as [|[k old] rest IH]; simpl.
  - now rewrite String.eqb_refl.
  - destruct (k =? name) eqn:E; simpl.
    + now rewrite String.eqb_refl.
    + now rewrite E.
Qed.

Lemma lookup_set_entry_other (name key : string) (child : Fs.node)
  (entries : list (string * Fs.node)) :
  key <> name ->
  Fs.lookup key (Fs.set_entry name child entries) = Fs.lookup key entries.
Proof.
  intros Hne. induction entries as [|[k old] rest IH]; simpl.
  - apply String.eqb_neq in Hne. now rewrite String.eqb_sym, Hne.
  - destruct (k =? name) eqn:E; simpl.
    + apply String.eqb_eq in E. subst k.
      apply String.eqb_neq in Hne. now rewrite String.eqb_sym, Hne.
    + now rewrite IH.
Qed.

Lemma store_cons (seg next : string) (rest : list string) (trailing : bool)
  (content : buffer) (entries : list (string * Fs.node)) :
  Fs.store (seg :: next :: rest) trailing content (Fs.Dir entries)
  = match Fs.lookup seg entries with
    | Some child =>
        match Fs.store (next :: rest) trailing content child with
        | inr child' => inr (Fs.Dir (Fs.set_entry seg child' entries))
        | inl e => inl e
        end
    | None => inl ENOENT
    end.
Proof. reflexivity. Qed.

(** A successful [store] leaves the file there, and the path had no
    trailing slash. *)
Lemma store_stat (segs : list string) (trailing : bool) (content : buffer)
  (fs fs' : Fs.node) :
  Fs.store segs trailing content fs = inr fs' ->
  Fs.stat segs fs' = Fs.IsFile content /\ trailing = false.
Proof.
  revert fs fs'. induction segs as [|seg rest IH]; intros fs fs' H.
  - destruct fs; discriminate.
  - destruct fs as [|entries]; [discriminate|].
    destruct rest as [|next rest].
    + simpl in H. destruct (Fs.lookup seg entries) as [[|]|];
        destruct trailing; try discriminate;
        inversion H; subst; simpl; now rewrite lookup_set_entry_same.
    + rewrite store_cons in H.
      destruct (Fs.lookup seg entries) as [child|]; [|discriminate].
      destruct (Fs.store (next :: rest) trailing content child) as [e|child'] eqn:E;
        [discriminate|].
      inversion H; subst. apply IH in E as [E ->].
      split; [|reflexivity]. simpl. rewrite lookup_set_entry_same. exact E.
Qed.

(** [store] changes no other regular file. *)
Lemma store_other_files (segs : list string) (trailing : bool)
  (content : buffer) (fs fs' : Fs.node) :
  Fs.store segs trailing content fs = inr fs' ->
  forall q d, q <> segs ->
    Fs.stat q fs = Fs.IsFile d -> Fs.stat q fs' = Fs.IsFile d.
Proof.
  revert fs fs'. induction segs as [|seg rest IH]; intros fs fs' H q d Hq Hd.
  - destruct fs; discriminate.
  - destruct fs as [|entries]; [discriminate|].
    destruct q as [|k q']; [discriminate|].
    simpl in Hd.
    destruct (String.eqb_spec k seg) as [->|Hk].
    + destruct rest as [|next rest].
      * simpl in H. destruct (Fs.lookup seg entries) as [[old|]|];
          try discriminate.
        destruct q'; [congruence | discriminate].
      * rewrite store_cons in H.
        destruct (Fs.lookup seg entries) as [child|]; [|discriminate].
        destruct (Fs.store (next :: rest) trailing content child)
          as [e|child'] eqn:E; [discriminate|].
        inversion H; subst. simpl. rewrite lookup_set_entry_same.
        eapply IH; eauto. congruence.
    + assert (exists child', fs' = Fs.Dir (Fs.set_entry seg child' entries))
        as [child' ->].
      { destruct rest as [|next rest].
        - simpl in H. destruct (Fs.lookup seg entries) as [[|]|];
            destruct trailing; try discriminate; inversion H; eauto.
        - rewrite store_cons in H.
          destruct (Fs.lookup seg entries); [|discriminate].
          destruct (Fs.store _ _ _ _); [discriminate|].
          inversion H; eauto. }
      simpl. now rewrite lookup_set_entry_other.
Qed.

(** [mkdir -p] changes no regular file. *)
Lemma make_dirs_files (segs : list string) (fs fs' : Fs.node) :
  Fs.make_dirs segs fs = inr fs' ->
  forall q d, Fs.stat q fs = Fs.IsFile d -> Fs.stat q fs' = Fs.IsFile d.
Proof.
  revert fs fs'. induction segs as [|seg rest IH]; intros fs fs' H q d Hd.
  - destruct fs; [discriminate|]. simpl in H. now inversion H; subst.
  - destruct fs as [|entries]; [discriminate|].
    destruct q as [|k q']; [discriminate|].
    simpl in H, Hd.
    destruct (String.eqb_spec k seg) as [->|Hk].
    + destruct (Fs.lookup seg entries) as [child|]; [|discriminate].
      destruct (Fs.make_dirs rest child) as [e|child'] eqn:E; [discriminate|].
      inversion H; subst. simpl. rewrite lookup_set_entry_same. eauto.
    + assert (exists child', fs' = Fs.Dir (Fs.set_entry seg child' entries))
        as [child' ->].
      { destruct (Fs.lookup seg entries).
        - destruct (Fs.make_dirs rest n); [discriminate|]. inversion H; eauto.
        - inversion H; eauto. }
      simpl. now rewrite lookup_set_entry_other.
Qed.

Lemma stat_fresh_dirs_prefix (segs : list string) (k : nat) :
  exists entries,
    Fs.stat (firstn k segs) (Fs.fresh_dirs segs) = Fs.IsDir entries.
Proof.
  revert k. induction segs as [|seg rest IH]; intros k.
  - rewrite firstn_nil. simpl. eauto.
  - destruct k as [|k]; simpl; [eauto|].
    rewrite String.eqb_refl. apply IH.
Qed.

Lemma stat_fresh_dirs_below (segs : list string) (leaf : string) :
  Fs.stat (segs ++ [leaf]) (Fs.fresh_dirs segs) = Fs.Missing.
Proof.
  induction segs as [|seg rest IH]; simpl; [reflexivity|].
  now rewrite String.eqb_refl.
Qed.

Lemma make_dirs_creates (parent : list string) (leaf : string) (fs : Fs.node) :
  writable (parent ++ [leaf]) fs ->
  exists fs1,
    Fs.make_dirs parent fs = inr fs1
    /\ Fs.stat (parent ++ [leaf]) fs1 = Fs.stat (parent ++ [leaf]) fs
    /\ directories_to parent fs1.
Proof.
  revert fs. induction parent as [|p ps IH]; intros fs Hw.
  - destruct fs as [|entries].
    + destruct Hw as [Hw|[old Hw]]; discriminate.
    + exists (Fs.Dir entries). repeat split.
      intros k Hk. rewrite firstn_nil. simpl. eauto.
  - destruct fs as [|entries].
    + destruct Hw as [Hw|[old Hw]]; discriminate.
    + unfold writable in Hw. simpl in Hw. simpl.
      destruct (Fs.lookup p entries) as [child|] eqn:El.
      * destruct (IH child Hw) as (child1 & Hm & Hs & Hd).
        rewrite Hm. eexists. split; [reflexivity|]. split.
        -- now rewrite lookup_set_entry_same.
        -- intros [|k] Hk; simpl; [eauto|].
           rewrite lookup_set_entry_same. apply Hd. simpl in Hk. lia.
      * eexists. split; [reflexivity|]. split.
        -- rewrite lookup_set_entry_same. apply stat_fresh_dirs_below.
        -- intros [|k] Hk; simpl; [eauto|].
           rewrite lookup_set_entry_same. apply stat_fresh_dirs_prefix.
Qed.

Lemma store_succeeds (parent : list string) (leaf : string) (content : buffer)
  (fs1 : Fs.node) :
  directories_to parent fs1 ->
  writable (parent ++ [leaf]) fs1 ->
  exists fs2,
    Fs.store (parent ++ [leaf]) false content fs1 = inr fs2
    /\ directories_to parent fs2.
Proof.
  revert fs1. induction parent as [|p ps IH]; intros fs1 Hd Hw.
  - destruct fs1 as [|entries].
    + destruct Hw as [Hw|[old Hw]]; discriminate.
    + unfold writable in Hw. simpl in Hw. simpl.
      assert (exists fs2,
                 match Fs.lookup leaf entries with
                 | Some (Fs.File _) | None =>
                     inr (Fs.Dir (Fs.set_entry leaf (Fs.File content) entries))
                 | Some (Fs.Dir _) => inl EISDIR
                 end = inr fs2 /\ exists e, fs2 = Fs.Dir e) as (fs2 & -> & e & ->).
      { destruct (Fs.lookup leaf entries) as [[|]|]; eauto.
        destruct Hw as [Hw|[old Hw]]; discriminate. }
      eexists. split; [reflexivity|].
      intros k Hk. rewrite firstn_nil. simpl. eauto.
  - destruct fs1 as [|entries].
    + destruct Hw as [Hw|[old Hw]]; discriminate.
    + unfold writable in Hw. simpl in Hw.
      simpl app. destruct (ps ++ [leaf]) as [|next rest] eqn:Eapp.
      { symmetry in Eapp. now apply app_cons_not_nil in Eapp. }
      rewrite store_cons.
      destruct (Fs.lookup p entries) as [child|] eqn:El.
      * rewrite <- Eapp in *.
        destruct (IH child) as (child2 & Hs & Hd2).
        -- intros k Hk. specialize (Hd (S k)). simpl in Hd.
           rewrite El in Hd. apply Hd. lia.
        -- exact Hw.
        -- rewrite Hs. eexists. split; [reflexivity|].
           intros [|k] Hk; simpl; [eauto|].
           rewrite lookup_set_entry_same. apply Hd2. simpl in Hk. lia.
      * exfalso. specialize (Hd 1). simpl in Hd. rewrite El in Hd.
        destruct Hd as [? Hd]; [lia | discriminate].
Qed.

(** What [FilesystemStorage.read] does, in terms of the tree. *)
Lemma read_unfold (path : string) (fs : Fs.node) :
  FilesystemStorage.read path fs
  = (match Fs.stat (Path.components path) fs with
     | Fs.IsFile content =>
         if Path.trailingSeparator (Path.join FilesystemStorage.rootDir path)
         then Throw (ErrnoException ENOTDIR)
         else Return content
     | Fs.IsDir _ => Throw (ErrnoException EISDIR)
     | Fs.Missing => Throw (ErrnoException ENOENT)
     | Fs.Blocked => Throw (ErrnoException ENOTDIR)
     end, fs).
Proof.
  unfold FilesystemStorage.read, Fs.readFile.
  rewrite components_join_rootDir.
  destruct (Fs.stat (Path.components path) fs); try reflexivity.
  now destruct (Path.trailingSeparator _).
Qed.

(** What [FilesystemStorage.write] does, in terms of the tree. *)
Lemma write_unfold (path : string) (content : buffer) (fs : Fs.node) :
  FilesystemStorage.write path content fs
  = match Fs.make_dirs (removelast (Path.components path)) fs with
    | inl e => (Throw (ErrnoException e), fs)
    | inr fs1 =>
        match Fs.store (Path.components path)
                (Path.trailingSeparator
                   (Path.join FilesystemStorage.rootDir path))
                content fs1 with
        | inr fs2 => (Return tt, fs2)
        | inl e => (Throw (ErrnoException e), fs1)
        end
    end.
Proof.
  unfold FilesystemStorage.write, Fs.bind, Fs.mkdir, Fs.writeFile.
  rewrite components_join_parent by apply join_rootDir_absolute.
  rewrite components_join_rootDir.
  destruct (Fs.make_dirs _ fs); [reflexivity|].
  now destruct (Fs.store _ _ _ _).
Qed.

(* ===================================================================== *)
(** * The storage provider *)
(* ===================================================================== *)

(** C10.  For every relative path and content buffer,
    [FilesystemStorage.write(path, content)] followed by
    [FilesystemStorage.read(path)] returns a buffer equal to [content],
    and [write] creates the missing parent directories of the path
    instead of failing.  First part: whenever [write] returns, [read] of
    the same path returns [content].  Second part: when the path names
    something below the root that is missing (whatever part of its
    parent directories is missing with it) or is a regular file, [write]
    returns, every directory down to the parent exists afterwards, and
    [read] returns [content]. *)
Theorem write_read_round_trip (path : string) (content : buffer) (fs : Fs.node) :
  (forall fs',
      FilesystemStorage.write path content fs = (Return tt, fs') ->
      FilesystemStorage.read path fs' = (Return content, fs'))
  /\ (Path.trailingSeparator path = false ->
      Path.components path <> [] ->
      writable (Path.components path) fs ->
      exists fs',
        FilesystemStorage.write path content fs = (Return tt, fs')
        /\ directories_to (removelast (Path.components path)) fs'
        /\ FilesystemStorage.read path fs' = (Return content, fs')).
Proof.
  assert (forall fs',
             FilesystemStorage.write path content fs = (Return tt, fs') ->
             FilesystemStorage.read path fs' = (Return content, fs')) as Hround.
  { intros fs' H. rewrite write_unfold in H.
    destruct (Fs.make_dirs _ fs) as [e|fs1]; [discriminate|].
    destruct (Fs.store _ _ _ fs1) as [e|fs2] eqn:Es; [discriminate|].
    inversion H; subst fs2. apply store_stat in Es as [Es Et].
    rewrite read_unfold, Es, Et. reflexivity. }
  split; [exact Hround|].
  intros Htrail Hne Hw.
  destruct (exists_last Hne) as (parent & leaf & E).
  assert (exists fs',
             FilesystemStorage.write path content fs = (Return tt, fs')
             /\ directories_to (removelast (Path.components path)) fs')
    as (fs' & Hwrite & Hdirs).
  { rewrite write_unfold, trailingSeparator_join_rootDir, Htrail by assumption.
    rewrite E in *. rewrite removelast_last.
    destruct (make_dirs_creates parent leaf fs Hw) as (fs1 & -> & Hs & Hd).
    destruct (store_succeeds parent leaf content fs1 Hd) as (fs2 & -> & Hd2).
    - unfold writable. now rewrite Hs.
    - eauto. }
  exists fs'. repeat split; auto.
Qed.

Example write_creates_parents :
  FilesystemStorage.write "a/b/c.txt" (Bytes "Hello, World!") Fs.empty
  = (Return tt,
     Fs.Dir [("a", Fs.Dir [("b", Fs.Dir [("c.txt", Fs.File (Bytes "Hello, World!"))])])]).
Proof. reflexivity. Qed.

Example write_over_directory_fails :
  fst (FilesystemStorage.write "a" (Bytes "x")
         (Fs.Dir [("a", Fs.Dir [])]))
  = Throw (ErrnoException EISDIR).
Proof. reflexivity. Qed.

Lemma node_induction (P : Fs.node -> Prop) :
  (forall content, P (Fs.File content)) ->
  (forall entries, Forall (fun entry => P (snd entry)) entries ->
                   P (Fs.Dir entries)) ->
  forall n, P n.
Proof.
  intros HF HD.
  exact (fix go (n : Fs.node) : P n :=
           match n with
           | Fs.File content => HF content
           | Fs.Dir entries =>
               HD entries
                 ((fix all (es : list (string * Fs.node))
                     : Forall (fun entry => P (snd entry)) es :=
                     match es with
                     | [] => Forall_nil _
                     | e :: rest => Forall_cons e (go (snd e)) (all rest)
                     end) entries)
           end).
Qed.

Lemma listing_dir_cons (name : string) (child : Fs.node)
  (rest : list (string * Fs.node)) :
  Fs.listing (Fs.Dir ((name, child) :: rest))
  = (name :: map (fun sub => (name ++ "/" ++ sub)%string) (Fs.listing child))
    ++ Fs.listing (Fs.Dir rest).
Proof. reflexivity. Qed.

Lemma lookup_listing (name : string) (child : Fs.node)
  (entries : list (string * Fs.node)) :
  Fs.lookup name entries = Some child ->
  In name (Fs.listing (Fs.Dir entries))
  /\ forall sub, In sub (Fs.listing child) ->
       In (name ++ "/" ++ sub)%string (Fs.listing (Fs.Dir entries)).
Proof.
  induction entries as [|[k c] rest IH]; [discriminate|].
  simpl Fs.lookup. intros H. rewrite listing_dir_cons.
  destruct (String.eqb_spec k name) as [->|Hk].
  - inversion H; subst. split.
    + now left.
    + intros sub Hsub. right. apply in_or_app. left.
      apply in_map_iff. now exists sub.
  - destruct (IH H) as [H1 H2]. split.
    + apply in_or_app. now right.
    + intros sub Hsub. apply in_or_app. right. now apply H2.
Qed.

(** [readdir] reports whatever is below the directory, at any
    depth, regular file or directory. *)
Lemma listing_complete (q : list string) (entries : list (string * Fs.node)) :
  q <> [] ->
  present (Fs.stat q (Fs.Dir entries)) ->
  In (Path.render q) (Fs.listing (Fs.Dir entries)).
Proof.
  revert entries. induction q as [|seg rest IH]; [congruence|].
  intros entries _ H. simpl in H.
  destruct (Fs.lookup seg entries) as [child|] eqn:El; [|contradiction].
  destruct (lookup_listing _ _ _ El) as [H1 H2].
  destruct rest as [|next rest]; [exact H1|].
  rewrite render_cons. apply H2.
  destruct child as [|entries']; [contradiction|].
  apply IH; [discriminate | exact H].
Qed.

Lemma render_app (ps q : list string) :
  ps <> [] -> q <> [] ->
  Path.render (ps ++ q) = (Path.render ps ++ "/" ++ Path.render q)%string.
Proof.
  intros Hps Hq. induction ps as [|p ps IH]; [congruence|].
  destruct ps as [|p' ps].
  - destruct q; [congruence | reflexivity].
  - simpl app in *. rewrite !render_cons, IH by discriminate.
    now rewrite !append_assoc.
Qed.

Lemma isAbsolute_render (segs : list string) :
  Forall (fun seg => entry_name seg = true) segs ->
  Path.isAbsolute (Path.render segs) = false.
Proof.
  destruct segs as [|seg rest]; [reflexivity|].
  intros H. inversion H as [|? ? Hseg _]; subst.
  assert (Path.isAbsolute seg = false) as Hs.
  { apply entry_name_slash_free in Hseg. destruct seg; [reflexivity|].
    simpl in *. apply andb_prop in Hseg as [Hc _].
    now apply negb_true_iff in Hc. }
  destruct rest; [exact Hs|].
  rewrite render_cons. destruct seg; [discriminate | exact Hs].
Qed.

(** A path written with entry names only is its own normal form. *)
Lemma normalize_render (segs : list string) :
  Forall (fun seg => entry_name seg = true) segs ->
  segs <> [] ->
  Path.normalize (Path.render segs) = Path.render segs.
Proof.
  intros H Hne. unfold Path.normalize.
  assert (Path.render segs <> "") as Hr.
  { intros E. now apply render_eq_empty in E. }
  apply String.eqb_neq in Hr. rewrite Hr.
  rewrite isAbsolute_render, trailingSeparator_render by assumption.
  rewrite split_render.
  - rewrite normalizeString_entry_names by assumption. simpl.
    rewrite Hr. now rewrite append_empty_r.
  - assumption.
  - eapply Forall_impl; [|exact H]. intros. now apply entry_name_slash_free.
Qed.

(** What [list] makes of an entry [q] found below the prefix [ps]. *)
Lemma list_entry_path (ps q : list string) :
  Forall (fun seg => entry_name seg = true) ps -> ps <> [] ->
  Forall (fun seg => entry_name seg = true) q -> q <> [] ->
  Path.relative FilesystemStorage.rootDir
    (Path.join FilesystemStorage.rootDir
       (Path.join (Path.render ps) (Path.render q)))
  = (Path.render ps ++ "/" ++ Path.render q)%string.
Proof.
  intros Hps Hne Hq Hqne.
  assert (Forall (fun seg => entry_name seg = true) (ps ++ q)) as Hall
    by (apply Forall_app; now split).
  assert (ps ++ q <> []) as Hallne by (destruct ps; [congruence | discriminate]).
  assert (Path.join (Path.render ps) (Path.render q) = Path.render (ps ++ q))
    as ->.
  { unfold Path.join.
    destruct (Path.render ps =? "") eqn:E1.
    { apply String.eqb_eq in E1. now apply render_eq_empty in E1. }
    destruct (Path.render q =? "") eqn:E2.
    { apply String.eqb_eq in E2. now apply render_eq_empty in E2. }
    rewrite <- render_app by assumption. now apply normalize_render. }
  unfold Path.relative.
  rewrite components_join_rootDir.
  assert (Path.components (Path.render (ps ++ q)) = ps ++ q) as ->.
  { unfold Path.components. rewrite split_render; [| assumption |].
    - now rewrite normalizeString_entry_names.
    - eapply Forall_impl; [|exact Hall].
      intros. now apply entry_name_slash_free. }
  simpl. now apply render_app.
Qed.

Lemma lookup_forallb (P : string * Fs.node -> bool) (name : string)
  (child : Fs.node) (entries : list (string * Fs.node)) :
  forallb P entries = true ->
  Fs.lookup name entries = Some child ->
  exists k, (k =? name) = true /\ P (k, child) = true.
Proof.
  induction entries as [|[k c] rest IH]; [discriminate|].
  simpl. intros H Hl. apply andb_prop in H as [Hk Hrest].
  destruct (k =? name) eqn:E.
  - inversion Hl; subst. eauto.
  - now apply IH.
Qed.

Lemma stat_well_named (p : list string) (fs : Fs.node)
  (entries : list (string * Fs.node)) :
  well_named fs = true ->
  Fs.stat p fs = Fs.IsDir entries ->
  well_named (Fs.Dir entries) = true.
Proof.
  revert fs. induction p as [|seg rest IH]; intros fs Hwf H.
  - destruct fs; [discriminate|]. simpl in H. now inversion H; subst.
  - destruct fs as [|es]; [discriminate|]. simpl in H.
    destruct (Fs.lookup seg es) as [child|] eqn:El; [|discriminate].
    simpl in Hwf.
    destruct (lookup_forallb _ _ _ _ Hwf El) as (k & _ & Hk).
    apply andb_prop in Hk as [_ Hc]. eauto.
Qed.

(** The strings [readdir] reports in a well-named tree are relative
    paths written with entry names. *)
Lemma listing_well_named (n : Fs.node) :
  well_named n = true ->
  Forall (fun e => exists q,
              q <> [] /\ Forall (fun seg => entry_name seg = true) q
              /\ e = Path.render q)
    (Fs.listing n).
Proof.
  induction n as [content|entries IH] using node_induction; intros Hwf.
  - constructor.
  - induction entries as [|[name child] rest IHrest]; [constructor|].
    rewrite listing_dir_cons. simpl in Hwf.
    apply andb_prop in Hwf as [Hhead Hrest].
    apply andb_prop in Hhead as [Hname Hchild].
    inversion IH as [|? ? IHchild IHothers]; subst.
    apply Forall_app. split; [|now apply IHrest].
    constructor.
    + exists [name]. repeat split; [discriminate | now repeat constructor].
    + apply Forall_forall. intros e He.
      apply in_map_iff in He as (sub & <- & Hsub).
      specialize (IHchild Hchild). rewrite Forall_forall in IHchild.
      destruct (IHchild _ Hsub) as (q & Hq & Hnames & ->).
      exists (name :: q). repeat split; [discriminate | now constructor |].
      destruct q; [congruence | reflexivity].
Qed.

(** What [FilesystemStorage.list] does, in terms of the tree. *)
Lemma list_unfold (prefix : string) (fs : Fs.node) :
  FilesystemStorage.list prefix fs
  = (match Fs.stat (Path.components prefix) fs with
     | Fs.IsDir entries =>
         Return
           (map (fun entry =>
                   Path.relative FilesystemStorage.rootDir
                     (Path.join FilesystemStorage.rootDir
                        (Path.join prefix entry)))
              (Fs.listing (Fs.Dir entries)))
     | Fs.Missing => Return []
     | Fs.IsFile _ | Fs.Blocked => Throw (ErrnoException ENOTDIR)
     end, fs).
Proof.
  unfold FilesystemStorage.list, Fs.try_catch, Fs.bind, Fs.readdir.
  rewrite components_join_rootDir.
  now destruct (Fs.stat (Path.components prefix) fs).
Qed.

(** The result of [list] for a prefix written with entry names that
    is a directory of a well-named tree: the prefix, a slash, the
    entry, for every entry [readdir] reports. *)
Lemma list_of_directory (ps : list string) (fs : Fs.node)
  (entries : list (string * Fs.node)) :
  ps <> [] ->
  Forall (fun seg => entry_name seg = true) ps ->
  well_named fs = true ->
  Fs.stat (Path.components (Path.render ps)) fs = Fs.IsDir entries ->
  FilesystemStorage.list (Path.render ps) fs
  = (Return
       (map (fun entry => (Path.render ps ++ "/" ++ entry)%string)
          (Fs.listing (Fs.Dir entries))), fs).
Proof.
  intros Hps Hnames Hwf H.
  rewrite list_unfold, H. do 2 f_equal.
  apply map_ext_in. intros entry Hin.
  pose proof (listing_well_named (Fs.Dir entries)
                (stat_well_named _ _ _ Hwf H)) as Hl.
  rewrite Forall_forall in Hl.
  destruct (Hl _ Hin) as (q & Hq & Hqn & ->).
  now apply list_entry_path.
Qed.

(** C9.  [FilesystemStorage.list(prefix)]: for a prefix that does not
    exist under the storage root the result is the empty list (the
    [ENOENT] of [readdir] is swallowed); any other error of [readdir]
    is thrown to the caller; for a prefix that is a directory the
    result has one path per entry [readdir] reports, which is every
    regular file and every directory at any depth below the prefix, and
    each path is the prefix joined with the entry (for a prefix written
    with entry names in a well-named tree: the prefix, a slash, the
    entry). *)
Theorem list_swallows_only_ENOENT (prefix : string) (fs : Fs.node) :
  (Fs.stat (Path.components prefix) fs = Fs.Missing ->
   FilesystemStorage.list prefix fs = (Return [], fs))
  /\ (forall e,
         fst (Fs.readdir (Path.join FilesystemStorage.rootDir prefix) fs)
         = Throw e ->
         code_of e <> Some "ENOENT" ->
         FilesystemStorage.list prefix fs = (Throw e, fs))
  /\ (forall entries,
         Fs.stat (Path.components prefix) fs = Fs.IsDir entries ->
         FilesystemStorage.list prefix fs
         = (Return
              (map (fun entry =>
                      Path.relative FilesystemStorage.rootDir
                        (Path.join FilesystemStorage.rootDir
                           (Path.join prefix entry)))
                 (Fs.listing (Fs.Dir entries))), fs)
         /\ (forall q, q <> [] -> present (Fs.stat q (Fs.Dir entries)) ->
                       In (Path.render q) (Fs.listing (Fs.Dir entries)))
         /\ (forall ps,
                prefix = Path.render ps -> ps <> [] ->
                Forall (fun seg => entry_name seg = true) ps ->
                well_named fs = true ->
                FilesystemStorage.list prefix fs
                = (Return
                     (map (fun entry => (prefix ++ "/" ++ entry)%string)
                        (Fs.listing (Fs.Dir entries))), fs))).
Proof.
  split; [|split].
  - intros H. now rewrite list_unfold, H.
  - intros e H Hcode.
    unfold FilesystemStorage.list, Fs.try_catch, Fs.bind.
    destruct (Fs.readdir _ fs) as [[entries|e'] fs'] eqn:Er;
      simpl in H; [discriminate|].
    inversion H; subst e'.
    assert (fs' = fs) as ->.
    { unfold Fs.readdir in Er.
      destruct (Fs.stat _ fs); now inversion Er. }
    destruct (code_of e) as [code|] eqn:Ec; [|reflexivity].
    destruct (String.eqb_spec code "ENOENT") as [->|Hne]; [|reflexivity].
    congruence.
  - intros entries H. split; [|split].
    + now rewrite list_unfold, H.
    + intros q Hq Hp. now apply listing_complete.
    + intros ps -> Hps Hnames Hwf. now apply list_of_directory.
Qed.

Example list_of_missing_prefix :
  FilesystemStorage.list "components/button" Fs.empty = (Return [], Fs.empty).
Proof. reflexivity. Qed.

Example list_of_regular_file :
  fst (FilesystemStorage.list "a.txt" (Fs.Dir [("a.txt", Fs.File (Bytes "x"))]))
  = Throw (ErrnoException ENOTDIR).
Proof. reflexivity. Qed.

Example list_reports_directories_too :
  fst (FilesystemStorage.list "components/button"
         (Fs.Dir
            [("components",
              Fs.Dir
                [("button",
                  Fs.Dir
                    [("index.ts", Fs.File (Bytes "a"));
                     ("lib", Fs.Dir [("style.css", Fs.File (Bytes "b"))])]);
                 ("input", Fs.Dir [("index.ts", Fs.File (Bytes "c"))])])]))
  = Return
      ["components/button/index.ts"; "components/button/lib";
       "components/button/lib/style.css"].
Proof. reflexivity. Qed.

(* ===================================================================== *)
(** * The registry: what a request does to the store *)
(* ===================================================================== *)

Lemma read_only_ret {A : Type} (a : A) : read_only (Fs.ret a).
Proof. intros fs. reflexivity. Qed.

Lemma read_only_throw {A : Type} (e : exn) : read_only (@Fs.throw A e).
Proof. intros fs. reflexivity. Qed.

Lemma read_only_lift {A : Type} (o : outcome A) : read_only (Fs.lift o).
Proof. intros fs. reflexivity. Qed.

Lemma read_only_bind {A B : Type} (m : Fs.IO A) (k : A -> Fs.IO B) :
  read_only m -> (forall a, read_only (k a)) -> read_only (Fs.bind m k).
Proof.
  intros Hm Hk fs. unfold Fs.bind. specialize (Hm fs).
  destruct (m fs) as [[a|e] fs']; simpl in Hm; subst; [apply Hk | reflexivity].
Qed.

Lemma read_only_try_catch {A : Type} (m : Fs.IO A) (h : exn -> Fs.IO A) :
  read_only m -> (forall e, read_only (h e)) -> read_only (Fs.try_catch m h).
Proof.
  intros Hm Hh fs. unfold Fs.try_catch. specialize (Hm fs).
  destruct (m fs) as [[a|e] fs']; simpl in Hm; subst; [reflexivity | apply Hh].
Qed.

Lemma read_only_if {A : Type} (b : bool) (m1 m2 : Fs.IO A) :
  read_only m1 -> read_only m2 -> read_only (if b then m1 else m2).
Proof. now destruct b. Qed.

Lemma read_only_for_of {A B : Type} (xs : list A) (acc : B)
  (body : B -> A -> Fs.IO B) :
  (forall b a, read_only (body b a)) ->
  read_only (ComponentsController.for_of xs acc body).
Proof.
  intros Hb. revert acc. induction xs as [|x xs IH]; intros acc; simpl.
  - apply read_only_ret.
  - apply read_only_bind; [apply Hb | intros; apply IH].
Qed.

Lemma read_only_read (path : string) : read_only (FilesystemStorage.read path).
Proof. intros fs. now rewrite read_unfold. Qed.

Lemma read_only_list (prefix : string) : read_only (FilesystemStorage.list prefix).
Proof. intros fs. now rewrite list_unfold. Qed.

Lemma read_only_zod_parse (z : Zod.schema) (value : json) :
  read_only (ComponentsController.zod_parse z value).
Proof.
  unfold ComponentsController.zod_parse.
  destruct (Zod.parse z value); [apply read_only_ret | apply read_only_throw].
Qed.

Lemma read_only_next (e : exn) : read_only (App.next e).
Proof. apply read_only_ret. Qed.

Create HintDb read_only.
#[local] Hint Resolve read_only_ret read_only_throw read_only_lift
  read_only_read read_only_list read_only_zod_parse read_only_next
  : read_only.

Ltac read_only_step :=
  first
    [ solve [auto with read_only]
    | apply read_only_for_of; intros
    | apply read_only_if
    | apply read_only_try_catch; intros
    | apply read_only_bind; intros ].

Lemma read_only_ComponentsController_list (req : Request) :
  read_only (App.controller_list req App.next).
Proof.
  unfold App.controller_list, ComponentsController.list.
  repeat read_only_step.
Qed.

Lemma read_only_getDetails (now : string) (req : Request) :
  read_only (App.controller_getDetails now req App.next).
Proof.
  unfold App.controller_getDetails, ComponentsController.getDetails.
  repeat read_only_step.
Qed.

Lemma read_only_getVersion (req : Request) :
  read_only (App.controller_getVersion req App.next).
Proof.
  unfold App.controller_getVersion, ComponentsController.getVersion.
  repeat read_only_step.
Qed.

Lemma parse_object (shape : list (string * (bool * Zod.schema)))
  (input out : json) :
  Zod.parse (Zod.ZObject shape) input = Some out ->
  exists fields parsed,
    input = JObj fields
    /\ Zod.parse_shape Zod.parse fields shape = Some parsed
    /\ out = JObj parsed.
Proof.
  destruct input as [| | | | |fields]; try discriminate.
  simpl. intros H.
  destruct (Zod.parse_shape Zod.parse fields shape) as [parsed|] eqn:E;
    [|discriminate].
  inversion H. eauto.
Qed.

Lemma parse_shape_required (fields : list (string * json)) (key : string)
  (z : Zod.schema) (shape : list (string * (bool * Zod.schema)))
  (out : list (string * json)) :
  Zod.parse_shape Zod.parse fields ((key, Zod.required z) :: shape) = Some out ->
  exists v v' rest,
    field key fields = Some v
    /\ Zod.parse z v = Some v'
    /\ Zod.parse_shape Zod.parse fields shape = Some rest
    /\ out = (key, v') :: rest.
Proof.
  simpl. intros H.
  destruct (field key fields) as [v|]; [|discriminate].
  destruct (Zod.parse z v) as [v'|] eqn:Ev; [|discriminate].
  destruct (Zod.parse_shape Zod.parse fields shape) as [rest|] eqn:Er;
    [|discriminate].
  inversion H. exists v, v', rest. auto.
Qed.

Lemma parse_string (input out : json) :
  Zod.parse Zod.ZString input = Some out ->
  exists s, input = JStr s /\ out = JStr s.
Proof.
  destruct input; simpl; intros H; inversion H. eauto.
Qed.

(** A component that passes [ComponentSchema] starts with its
    metadata, and the metadata with the name and the version of the
    input. *)
Lemma parse_component (body component : json) :
  Zod.parse Types.ComponentSchema body = Some component ->
  exists name version more others,
    declares body name version
    /\ component
       = JObj (("metadata",
                JObj (("name", JStr name) :: ("version", JStr version) :: more))
               :: others).
Proof.
  intros H. unfold Types.ComponentSchema in H.
  apply parse_object in H as (fields & parsed & -> & H & ->).
  apply parse_shape_required in H as (v & v' & others & Hm & Hv & _ & ->).
  unfold Types.ComponentMetadataSchema in Hv.
  apply parse_object in Hv as (metadata & parsed & -> & H & ->).
  apply parse_shape_required in H as (n & n' & rest & Hn & Hpn & H & ->).
  apply parse_shape_required in H as (w & w' & more & Hw & Hpw & _ & ->).
  apply parse_string in Hpn as (name & -> & ->).
  apply parse_string in Hpw as (version & -> & ->).
  exists name, version, more, others. split; [|reflexivity].
  exists fields, metadata. auto.
Qed.

Lemma declares_unique (body : json) (n1 v1 n2 v2 : string) :
  declares body n1 v1 -> declares body n2 v2 -> n1 = n2 /\ v1 = v2.
Proof.
  intros (f1 & m1 & E1 & Hm1 & Hn1 & Hv1) (f2 & m2 & E2 & Hm2 & Hn2 & Hv2).
  subst body. inversion E2; subst f2.
  rewrite Hm1 in Hm2. inversion Hm2; subst m2.
  rewrite Hn1 in Hn2. rewrite Hv1 in Hv2.
  inversion Hn2. inversion Hv2. auto.
Qed.

(** The controller of the application works on the filesystem
    storage. *)
Ltac inject_storage :=
  change (Storage.read App.storage) with FilesystemStorage.read;
  change (Storage.list App.storage) with FilesystemStorage.list;
  change (Storage.write App.storage) with FilesystemStorage.write.

(** What [create] does once the body has passed [ComponentSchema]. *)
Lemma create_unfold (req : Request) (component : json) (name version : string)
  (fs : Fs.node) :
  Zod.parse Types.ComponentSchema (req_body req) = Some component ->
  declares (req_body req) name version ->
  App.controller_create req App.next fs
  = match FilesystemStorage.read
            (ComponentsController.manifest_path name version) fs with
    | (Return _, _) =>
        (Return (errorHandler (APIError "VERSION_CONFLICT" "Version already exists")),
         fs)
    | (Throw (ErrnoException ENOENT), _) =>
        match FilesystemStorage.write
                (ComponentsController.manifest_path name version)
                (JSON_stringify component) fs with
        | (Return _, fs') =>
            (Return {| status := 201; body := Data component |}, fs')
        | (Throw e, fs') => (Return (errorHandler e), fs')
        end
    | (Throw e, _) => (Return (errorHandler e), fs)
    end.
Proof.
  intros Hparse Hdecl.
  destruct (parse_component _ _ Hparse) as (n & v & more & others & Hd & Hc).
  destruct (declares_unique _ _ _ _ _ Hdecl Hd) as [<- <-].
  unfold App.controller_create, ComponentsController.create,
    ComponentsController.zod_parse.
  inject_storage.
  rewrite Hparse. subst component.
  unfold Fs.try_catch, Fs.bind, Fs.ret, Fs.lift, Fs.throw.
  change (prop (Some (JObj (("metadata",
                             JObj (("name", JStr name)
                                   :: ("version", JStr version) :: more))
                            :: others))) "metadata")
    with (Return (Some (JObj (("name", JStr name)
                              :: ("version", JStr version) :: more)))).
  cbv iota beta.
  change (prop (Some (JObj (("name", JStr name)
                            :: ("version", JStr version) :: more))) "name")
    with (Return (Some (JStr name))).
  cbv iota beta.
  change (prop (Some (JObj (("name", JStr name)
                            :: ("version", JStr version) :: more))) "version")
    with (Return (Some (JStr version))).
  cbv iota beta. simpl ComponentsController.text.
  rewrite !read_unfold.
  destruct (Fs.stat _ fs); try reflexivity.
  - now destruct (Path.trailingSeparator _).
  - simpl. now destruct (FilesystemStorage.write _ _ fs) as [[[]|e] fs'].
Qed.

Lemma read_returns (path : string) (content : buffer) (fs : Fs.node) :
  FilesystemStorage.read path fs = (Return content, fs)
  <-> Fs.stat (Path.components path) fs = Fs.IsFile content
      /\ Path.trailingSeparator (Path.join FilesystemStorage.rootDir path) = false.
Proof.
  rewrite read_unfold. split.
  - destruct (Fs.stat _ fs); try discriminate.
    destruct (Path.trailingSeparator _); [discriminate|].
    intros H. inversion H. auto.
  - intros [-> ->]. reflexivity.
Qed.

Lemma read_ENOENT (path : string) (fs : Fs.node) :
  fst (FilesystemStorage.read path fs) = Throw (ErrnoException ENOENT)
  <-> Fs.stat (Path.components path) fs = Fs.Missing.
Proof.
  rewrite read_unfold. split.
  - destruct (Fs.stat _ fs); simpl; try discriminate; [|reflexivity].
    destruct (Path.trailingSeparator _); discriminate.
  - intros ->. reflexivity.
Qed.

(** Writing where nothing was leaves every regular file as it is. *)
Lemma write_preserves_files (path : string) (content : buffer) (fs : Fs.node)
  (q : string) (d : buffer) :
  Fs.stat (Path.components path) fs = Fs.Missing ->
  FilesystemStorage.read q fs = (Return d, fs) ->
  FilesystemStorage.read q (snd (FilesystemStorage.write path content fs))
  = (Return d, snd (FilesystemStorage.write path content fs)).
Proof.
  intros Hmiss Hq. apply read_returns in Hq as [Hq Ht].
  apply read_returns. split; [|exact Ht].
  rewrite write_unfold.
  destruct (Fs.make_dirs _ fs) as [e|fs1] eqn:Em; [exact Hq|].
  pose proof (make_dirs_files _ _ _ Em _ _ Hq) as Hq1.
  destruct (Fs.store _ _ _ fs1) as [e|fs2] eqn:Es; [exact Hq1|].
  simpl. eapply store_other_files; eauto.
  intros E. rewrite E in Hq. congruence.
Qed.

(** C4.  Publishing a name and version that is already published
    fails with HTTP 409 and code [VERSION_CONFLICT] and leaves the
    store, hence the stored manifest, as it was; and no request to the
    registry changes the content of a file the store holds: whatever
    [read] returned for a path before the request, it returns after
    it. *)
Theorem published_manifest_is_immutable (now : string) (fs : Fs.node) :
  (forall req component name version manifest,
      Zod.parse Types.ComponentSchema (req_body req) = Some component ->
      declares (req_body req) name version ->
      FilesystemStorage.read
        (ComponentsController.manifest_path name version) fs
      = (Return manifest, fs) ->
      App.app now App.POST_components req fs
      = (Return {| status := 409;
                   body := Failure "VERSION_CONFLICT" "Version already exists" |},
         fs))
  /\ (forall route req path content,
         FilesystemStorage.read path fs = (Return content, fs) ->
         FilesystemStorage.read path (snd (App.app now route req fs))
         = (Return content, snd (App.app now route req fs))).
Proof.
  split.
  - intros req component name version manifest Hparse Hdecl Hread.
    unfold App.app, App.validateComponent. rewrite Hparse.
    rewrite (create_unfold _ _ _ _ _ Hparse Hdecl), Hread. reflexivity.
  - intros route req path content Hread.
    destruct route; simpl App.app.
    + now rewrite read_only_ComponentsController_list.
    + unfold App.validateComponent.
      destruct (Zod.parse Types.ComponentSchema (req_body req))
        as [component|] eqn:Hparse; [|exact Hread].
      destruct (parse_component _ _ Hparse) as (name & version & _ & _ & Hd & _).
      rewrite (create_unfold _ _ _ _ _ Hparse Hd).
      pose proof (read_ENOENT
                    (ComponentsController.manifest_path name version) fs) as Hmiss.
      pose proof (read_only_read
                    (ComponentsController.manifest_path name version) fs) as Hro.
      destruct (FilesystemStorage.read
                  (ComponentsController.manifest_path name version) fs)
        as [[data|e] fs1]; [exact Hread|].
      destruct e as [| |[]| |]; try exact Hread.
      pose proof (write_preserves_files
                    (ComponentsController.manifest_path name version)
                    (JSON_stringify component) fs path content
                    (proj1 Hmiss eq_refl) Hread) as Hkeep.
      now destruct (FilesystemStorage.write _ _ fs) as [[[]|e] fs'].
    + now rewrite read_only_getDetails.
    + now rewrite read_only_getVersion.
Qed.

Example republishing_conflicts :
  let button :=
    JObj [("metadata", JObj [("name", JStr "button"); ("version", JStr "1.0.0")]);
          ("files", JArr [])] in
  let fs := snd (App.app "" App.POST_components (App.publish_request button)
                   Fs.empty) in
  App.app "" App.POST_components (App.publish_request button) fs
  = (Return {| status := 409;
               body := Failure "VERSION_CONFLICT" "Version already exists" |},
     fs).
Proof. reflexivity. Qed.

Lemma components_manifest_path (name version : string) :
  Path.components (ComponentsController.manifest_path name version)
  = Path.components ("components/" ++ name ++ "/" ++ version)
    ++ ["component.json"].
Proof.
  unfold ComponentsController.manifest_path, Path.components.
  change ("components/" ++ name ++ "/" ++ version ++ "/component.json")%string
    with ("components" ++ "/" ++ name ++ "/" ++ version ++ "/" ++ "component.json")%string.
  change ("components/" ++ name ++ "/" ++ version)%string
    with ("components" ++ "/" ++ name ++ "/" ++ version)%string.
  rewrite !split_app_slash, !app_assoc, normalizeString_app.
  rewrite <- !app_assoc. simpl (Path.split "component.json").
  simpl. now rewrite rev_involutive.
Qed.

Lemma manifest_path_no_trailing (name version : string) :
  Path.trailingSeparator
    (Path.join FilesystemStorage.rootDir
       (ComponentsController.manifest_path name version)) = false.
Proof.
  rewrite trailingSeparator_join_rootDir.
  - unfold ComponentsController.manifest_path.
    assert (forall a b, b <> "" -> (a ++ b)%string <> "") as Hne.
    { intros a b Hb E. now apply append_eq_empty in E. }
    rewrite (trailingSeparator_app "components/"),
      (trailingSeparator_app name), (trailingSeparator_app "/"),
      (trailingSeparator_app version);
      repeat first [reflexivity | discriminate | apply Hne].
  - rewrite components_manifest_path. intros E.
    symmetry in E. now apply app_cons_not_nil in E.
Qed.

(** What [getVersion] answers, by what the store holds at the
    manifest path. *)
Lemma getVersion_unfold (req : Request) (fs : Fs.node) :
  App.controller_getVersion req App.next fs
  = (Return
       match Fs.stat
               (Path.components
                  (ComponentsController.manifest_path
                     (params_name req) (params_version req))) fs with
       | Fs.IsFile (JsonText j) =>
           match Zod.parse Types.ComponentSchema j with
           | Some component => {| status := 200; body := Data component |}
           | None => errorHandler ZodError
           end
       | Fs.IsFile (Bytes _) => errorHandler SyntaxError
       | Fs.IsDir _ => errorHandler (ErrnoException EISDIR)
       | Fs.Missing =>
           errorHandler (APIError "VERSION_NOT_FOUND" "Version not found")
       | Fs.Blocked => errorHandler (ErrnoException ENOTDIR)
       end, fs).
Proof.
  unfold App.controller_getVersion, ComponentsController.getVersion,
    Fs.try_catch, Fs.bind.
  inject_storage.
  rewrite read_unfold, manifest_path_no_trailing.
  destruct (Fs.stat _ fs) as [[j|s]|entries| |]; try reflexivity.
  unfold Fs.lift, JSON_parse, ComponentsController.zod_parse.
  now destruct (Zod.parse Types.ComponentSchema j).
Qed.

(** C5, as stated, fails: a stored payload that passes
    [ComponentSchema] is not returned unchanged when it has a key the
    schema does not declare. *)
Lemma valid_payload_is_returned_stripped :
  Zod.parse Types.ComponentSchema annotated_button <> None
  /\ FilesystemStorage.read
       (ComponentsController.manifest_path "button" "1.0.0") annotated_store
     = (Return (JsonText annotated_button), annotated_store)
  /\ exists returned,
       fst (App.app "" App.GET_component_version
              (App.version_request "button" "1.0.0") annotated_store)
       = Return {| status := 200; body := Data returned |}
       /\ returned <> annotated_button.
Proof.
  split; [discriminate|]. split; [reflexivity|].
  eexists. split; [reflexivity | discriminate].
Qed.

(** C5, amended.  For every stored version payload,
    [GET /components/{name}/versions/{version}] answers: when the
    payload is JSON text that fails [ComponentSchema], HTTP 400 with
    code [VALIDATION_ERROR]; when it is JSON text that passes, HTTP 200
    with the component as the schema parses it (the declared fields,
    every other key stripped); when it is not JSON text, HTTP 500 with
    code [INTERNAL_ERROR]. *)
Theorem getVersion_answers_by_validation (now name version : string)
  (fs : Fs.node) (payload : buffer) :
  FilesystemStorage.read (ComponentsController.manifest_path name version) fs
  = (Return payload, fs) ->
  App.app now App.GET_component_version (App.version_request name version) fs
  = (Return
       match payload with
       | JsonText j =>
           match Zod.parse Types.ComponentSchema j with
           | Some component => {| status := 200; body := Data component |}
           | None =>
               {| status := 400;
                  body := Failure "VALIDATION_ERROR" "Invalid request data" |}
           end
       | Bytes _ =>
           {| status := 500;
              body := Failure "INTERNAL_ERROR" "Internal server error" |}
       end, fs).
Proof.
  intros H. apply read_returns in H as [H _].
  simpl App.app. rewrite getVersion_unfold. simpl params_name.
  simpl params_version. rewrite H. now destruct payload.
Qed.

Lemma getVersion_answers_by_validation_witness :
  FilesystemStorage.read
    (ComponentsController.manifest_path "button" "1.0.0") annotated_store
  = (Return (JsonText annotated_button), annotated_store)
  /\ App.app "" App.GET_component_version
       (App.version_request "button" "1.0.0") annotated_store
     = (Return
          {| status := 200;
             body :=
               Data
                 (JObj [("metadata",
                         JObj [("name", JStr "button");
                               ("version", JStr "1.0.0")]);
                        ("files", JArr [])]) |},
        annotated_store).
Proof.
  split; [reflexivity|].
  exact (getVersion_answers_by_validation "" "button" "1.0.0" annotated_store
           (JsonText annotated_button) eq_refl).
Defined.

Example invalid_payload_is_a_validation_error :
  let fs :=
    snd (FilesystemStorage.write "components/button/1.0.0/component.json"
           (JSON_stringify (JObj [("metadata", JObj [("version", JStr "1.0.0")]);
                                  ("files", JArr [])])) Fs.empty) in
  fst (App.app "" App.GET_component_version
         (App.version_request "button" "1.0.0") fs)
  = Return {| status := 400;
              body := Failure "VALIDATION_ERROR" "Invalid request data" |}.
Proof. reflexivity. Qed.

(* ===================================================================== *)
(** * The CLI *)
(* ===================================================================== *)

(** C8.  When [parseAsync] rejects (and has not ended the process
    itself), [run] logs the message of the error, or
    ['An unknown error occurred'] for a value that is no [Error], and
    ends the process with exit code 1; when it resolves, [run] returns
    without calling [process.exit].  Hence the exit code of a run is 0
    exactly when [parseAsync] resolved. *)
Theorem run_exit_code
  (parseAsync : list string -> Cli.Process -> Cli.settled * Cli.Process)
  (args : list string) (p p' : Cli.Process) (outcome : Cli.settled) :
  parseAsync args p = (outcome, p') ->
  Cli.exited p' = None ->
  Cli.run parseAsync args p
  = match outcome with
    | Cli.Rejected error =>
        {| Cli.console := Cli.console p' ++ [error_line error];
           Cli.exited := Some 1%Z |}
    | Cli.Resolved => p'
    end
  /\ (Cli.exit_code (Cli.run parseAsync args p) = 0%Z <-> outcome = Cli.Resolved).
Proof.
  intros Hparse Hlive. unfold Cli.run. rewrite Hparse.
  destruct outcome as [|error].
  - split; [reflexivity|]. unfold Cli.exit_code. rewrite Hlive. tauto.
  - assert (Cli.handleError error p'
            = {| Cli.console := Cli.console p' ++ [error_line error];
                 Cli.exited := Some 1%Z |}) as ->.
    { unfold Cli.handleError, Cli.logger_error, Cli.emit, Cli.process_exit.
      destruct error; rewrite Hlive; simpl; reflexivity. }
    split; [reflexivity|]. unfold Cli.exit_code. simpl.
    split; [discriminate | discriminate].
Qed.

Lemma run_exit_code_witness :
  Cli.run failing_program ["node"; "fetch-ui"; "add"; "button"] Cli.start
  = {| Cli.console :=
         [("stdout", "info", "Adding component button from local registry");
          ("stderr", "error", "Test error")];
       Cli.exited := Some 1%Z |}
  /\ (Cli.exit_code
        (Cli.run failing_program ["node"; "fetch-ui"; "add"; "button"] Cli.start)
      = 0%Z
      <-> Cli.Rejected (Cli.ErrorObject "Test error") = Cli.Resolved).
Proof.
  exact (run_exit_code failing_program ["node"; "fetch-ui"; "add"; "button"]
           Cli.start (Cli.add_action "button" "local" Cli.start)
           (Cli.Rejected (Cli.ErrorObject "Test error")) eq_refl eq_refl).
Defined.

Example handleError_of_a_non_error :
  Cli.handleError Cli.OtherValue Cli.start
  = {| Cli.console := [("stderr", "error", "An unknown error occurred")];
       Cli.exited := Some 1%Z |}.
Proof. reflexivity. Qed.

(* ===================================================================== *)
(** * The registry: the store it builds and what it answers *)
(* ===================================================================== *)

Lemma components_of_component (name : string) :
  entry_name name = true ->
  Path.components ("components/" ++ name) = ["components"; name].
Proof.
  intros Hn. unfold Path.components.
  change ("components/" ++ name)%string with ("components" ++ "/" ++ name)%string.
  rewrite split_app_slash, (split_slash_free name)
    by now apply entry_name_slash_free.
  change (Path.split "components" ++ [name]) with ["components"; name].
  apply (normalizeString_entry_names false ["components"; name] []).
  now repeat constructor.
Qed.

Lemma components_of_manifest (name version : string) :
  entry_name name = true -> entry_name version = true ->
  Path.components (ComponentsController.manifest_path name version)
  = ["components"; name; version; "component.json"].
Proof.
  intros Hn Hv. rewrite components_manifest_path. unfold Path.components.
  change ("components/" ++ name ++ "/" ++ version)%string
    with ("components" ++ "/" ++ name ++ "/" ++ version)%string.
  rewrite !split_app_slash, (split_slash_free name), (split_slash_free version)
    by now apply entry_name_slash_free.
  change (Path.split "components" ++ [name] ++ [version])
    with ["components"; name; version].
  rewrite (normalizeString_entry_names false ["components"; name; version] []);
    [reflexivity | now repeat constructor].
Qed.

(** In a registry layout a directory of a component holds a
    published version. *)
Lemma layout_component_has_version (fs : Fs.node) (name : string) :
  registry_layout fs = true ->
  entry_name name = true ->
  Fs.stat ["components"; name] fs <> Fs.Missing ->
  exists version, entry_name version = true /\ published name version fs = true.
Proof.
  intros Hl Hn Hs.
  destruct fs as [|[|[dir [|components]] [|]]]; try discriminate.
  { now elim Hs. }
  simpl in Hl. apply andb_prop in Hl as [Hdir Hcs].
  apply String.eqb_eq in Hdir. subst dir.
  simpl in Hs.
  destruct (Fs.lookup name components) as [child|] eqn:El; [|now elim Hs].
  destruct (lookup_forallb _ _ _ _ Hcs El) as (k & _ & Hk).
  apply andb_prop in Hk as [_ Hc]. simpl in Hc.
  destruct child as [|[|[version vd] others]]; try discriminate.
  simpl in Hc. apply andb_prop in Hc as [Hfirst _].
  apply andb_prop in Hfirst as [Hv Hvd].
  exists version. split; [exact Hv|].
  unfold published. rewrite read_unfold, manifest_path_no_trailing.
  rewrite components_of_manifest by assumption.
  simpl. rewrite El. simpl. rewrite String.eqb_refl.
  destruct vd as [|[|[file [content|]] [|]]]; try discriminate.
  simpl in Hvd. apply String.eqb_eq in Hvd. subst file. reflexivity.
Qed.

(** In a registry layout the manifest path of entry names holds a
    manifest or nothing: no directory, and no file on the way. *)
Lemma layout_manifest_or_missing (fs : Fs.node) (name version : string) :
  registry_layout fs = true ->
  (exists content,
      Fs.stat ["components"; name; version; "component.json"] fs
      = Fs.IsFile content)
  \/ Fs.stat ["components"; name; version; "component.json"] fs = Fs.Missing.
Proof.
  intros Hl.
  destruct fs as [|[|[dir [|components]] [|]]]; try discriminate.
  { now right. }
  simpl in Hl. apply andb_prop in Hl as [Hdir Hcs].
  apply String.eqb_eq in Hdir. subst dir. simpl.
  destruct (Fs.lookup name components) as [child|] eqn:El; [|now right].
  destruct (lookup_forallb _ _ _ _ Hcs El) as (k & _ & Hk).
  apply andb_prop in Hk as [_ Hc].
  destruct child as [|[|first others]]; try discriminate.
  unfold component_dir in Hc.
  destruct (Fs.lookup version (first :: others)) as [vd|] eqn:Ev; [|now right].
  destruct (lookup_forallb _ _ _ _ Hc Ev) as (k' & _ & Hk').
  apply andb_prop in Hk' as [_ Hvd].
  destruct vd as [|[|[file [content|]] [|]]]; try discriminate.
  simpl in Hvd. apply String.eqb_eq in Hvd. subst file. simpl. eauto.
Qed.

Lemma getDetails_of_missing (now : string) (req : Request) (fs : Fs.node) :
  Fs.stat (Path.components ("components/" ++ params_name req)) fs = Fs.Missing ->
  App.controller_getDetails now req App.next fs
  = (Return {| status := 404;
               body := Failure "COMPONENT_NOT_FOUND" "Component not found" |},
     fs).
Proof.
  intros H.
  unfold App.controller_getDetails, ComponentsController.getDetails,
    Fs.try_catch, Fs.bind.
  inject_storage.
  now rewrite list_unfold, H.
Qed.

(** C3, as stated, fails: after [POST /components] has published
    version [1.0.0/component.json] of [button], version [1.0.0] of
    [button] is absent, and asking for it is answered with HTTP 500 and
    code [INTERNAL_ERROR], because the manifest path of [1.0.0] is a
    directory. *)
Lemma absent_version_reported_as_internal_error :
  fst (App.app "" App.POST_components (App.publish_request nested_button)
         Fs.empty)
  = Return {| status := 201; body := Data nested_button |}
  /\ published "button" "1.0.0" nested_store = false
  /\ App.app "" App.GET_component_version
       (App.version_request "button" "1.0.0") nested_store
     = (Return {| status := 500;
                  body := Failure "INTERNAL_ERROR" "Internal server error" |},
        nested_store).
Proof. repeat split. Qed.

(** C3, amended.  In a store with the registry layout (what the
    registry builds when every published name and version is an entry
    name: no slash, not empty, neither [.] nor [..]), for a name that
    is an entry name: when no version of it is published,
    [GET /components/{name}] answers HTTP 404 with code
    [COMPONENT_NOT_FOUND]; and when a version that is an entry name is
    not published, [GET /components/{name}/versions/{version}] answers
    HTTP 404 with code [VERSION_NOT_FOUND]. *)
Theorem missing_is_reported_not_found (now name version : string)
  (fs : Fs.node) :
  registry_layout fs = true ->
  entry_name name = true ->
  ((forall v, entry_name v = true -> published name v fs = false) ->
   App.app now App.GET_component (App.details_request name) fs
   = (Return {| status := 404;
                body := Failure "COMPONENT_NOT_FOUND" "Component not found" |},
      fs))
  /\ (entry_name version = true ->
      published name version fs = false ->
      App.app now App.GET_component_version
        (App.version_request name version) fs
      = (Return {| status := 404;
                   body := Failure "VERSION_NOT_FOUND" "Version not found" |},
         fs)).
Proof.
  intros Hl Hn. split.
  - intros Hnone. simpl App.app. apply getDetails_of_missing.
    simpl params_name. rewrite components_of_component by assumption.
    destruct (Fs.stat ["components"; name] fs) eqn:Es; try reflexivity;
      exfalso;
      (destruct (layout_component_has_version fs name Hl Hn) as (v & Hv & Hp);
       [ rewrite Es; discriminate
       | rewrite (Hnone v Hv) in Hp; discriminate ]).
  - intros Hv Hp. simpl App.app. rewrite getVersion_unfold.
    simpl params_name. simpl params_version.
    unfold published in Hp. rewrite read_unfold, manifest_path_no_trailing in Hp.
    rewrite components_of_manifest in * by assumption.
    destruct (layout_manifest_or_missing fs name version Hl) as [[c Hc]|Hm].
    + rewrite Hc in Hp. discriminate.
    + now rewrite Hm.
Qed.

Lemma missing_is_reported_not_found_witness :
  App.app "" App.GET_component (App.details_request "card") button_store
  = (Return {| status := 404;
               body := Failure "COMPONENT_NOT_FOUND" "Component not found" |},
     button_store)
  /\ App.app "" App.GET_component_version
       (App.version_request "button" "2.0.0") button_store
     = (Return {| status := 404;
                  body := Failure "VERSION_NOT_FOUND" "Version not found" |},
        button_store).
Proof.
  split.
  - apply (missing_is_reported_not_found "" "card" "1.0.0" button_store
             eq_refl eq_refl).
    intros v Hv. unfold published.
    rewrite read_unfold, components_of_manifest by (assumption || reflexivity).
    reflexivity.
  - apply (missing_is_reported_not_found "" "button" "2.0.0" button_store
             eq_refl eq_refl); reflexivity.
Defined.

Lemma forallb_impl {A : Type} (P Q : A -> bool) (l : list A) :
  (forall x, P x = true -> Q x = true) ->
  forallb P l = true -> forallb Q l = true.
Proof.
  intros H. rewrite !forallb_forall. auto.
Qed.

Lemma version_dir_well_named (n : Fs.node) :
  version_dir n = true -> well_named n = true.
Proof.
  destruct n as [|[|[file [content|]] [|]]]; try discriminate.
  simpl. intros H. apply String.eqb_eq in H. now subst.
Qed.

Lemma component_dir_well_named (n : Fs.node) :
  component_dir n = true -> well_named n = true.
Proof.
  destruct n as [|[|first others]]; try discriminate.
  unfold component_dir. cbn [well_named]. apply forallb_impl.
  intros [version vd] H. simpl in *. apply andb_prop in H as [-> H].
  now apply version_dir_well_named.
Qed.

Lemma layout_well_named (fs : Fs.node) :
  registry_layout fs = true -> well_named fs = true.
Proof.
  intros Hl.
  destruct fs as [|[|[dir [|components]] [|]]]; try discriminate; [reflexivity|].
  simpl in Hl. apply andb_prop in Hl as [Hdir Hcs].
  apply String.eqb_eq in Hdir. subst dir.
  cbn [well_named forallb fst snd]. rewrite andb_true_r.
  change (entry_name "components") with true. cbn [andb].
  revert Hcs. apply forallb_impl.
  intros [name child] H. simpl in *. apply andb_prop in H as [-> H].
  now apply component_dir_well_named.
Qed.

Lemma stat_missing_below (p q : list string) (fs : Fs.node) :
  Fs.stat p fs = Fs.Missing -> Fs.stat (p ++ q) fs = Fs.Missing.
Proof.
  revert fs. induction p as [|seg rest IH]; intros fs H.
  - destruct fs; discriminate.
  - destruct fs as [|entries]; [discriminate|]. simpl in *.
    destruct (Fs.lookup seg entries); [now apply IH | reflexivity].
Qed.

(** A registry layout is four levels deep: nothing is found at a
    longer path. *)
Lemma layout_depth (fs : Fs.node) (p : list string) :
  registry_layout fs = true ->
  5 <= List.length p ->
  Fs.stat p fs = Fs.Missing \/ Fs.stat p fs = Fs.Blocked.
Proof.
  intros Hl Hlen.
  destruct p as [|a [|b [|c [|d [|e rest]]]]]; simpl in Hlen; try lia.
  destruct fs as [|[|[dir [|components]] [|]]]; try discriminate.
  { now left. }
  simpl in Hl. apply andb_prop in Hl as [_ Hcs].
  simpl. destruct (dir =? a); [|now left].
  destruct (Fs.lookup b components) as [child|] eqn:El; [|now left].
  destruct (lookup_forallb _ _ _ _ Hcs El) as (k & _ & Hk).
  apply andb_prop in Hk as [_ Hc].
  destruct child as [|[|first others]]; try discriminate.
  unfold component_dir in Hc.
  change (Fs.stat (c :: d :: e :: rest) (Fs.Dir (first :: others)))
    with (match Fs.lookup c (first :: others) with
          | Some vd => Fs.stat (d :: e :: rest) vd
          | None => Fs.Missing
          end).
  destruct (Fs.lookup c (first :: others)) as [vd|] eqn:Ev; [|now left].
  destruct (lookup_forallb _ _ _ _ Hc Ev) as (k' & _ & Hk').
  apply andb_prop in Hk' as [_ Hvd].
  destruct vd as [|[|[file [content|]] [|]]]; try discriminate.
  simpl. destruct (file =? d); [now right | now left].
Qed.

Lemma insert_sorted_in (x y : string) (l : list string) :
  In y (insert_sorted x l) <-> y = x \/ In y l.
Proof.
  induction l as [|z l IH]; simpl.
  - intuition.
  - destruct (String.ltb x z); simpl; [intuition|].
    rewrite IH. intuition.
Qed.

Lemma sort_in (y : string) (l : list string) : In y (sort l) <-> In y l.
Proof.
  induction l as [|x l IH]; simpl; [tauto|].
  unfold sort in *. simpl. rewrite insert_sorted_in, IH. intuition.
Qed.

Lemma last_in (l : list string) (d : string) :
  l <> [] -> In (last l d) l.
Proof.
  induction l as [|x l IH]; [congruence|].
  intros _. destruct l as [|y l]; [now left|].
  right. apply IH. discriminate.
Qed.

(** What [pop] takes off the sorted array is one of the listed
    paths. *)
Lemma latest_is_listed (versions : list string) :
  versions <> [] -> In (last (sort versions) "") versions.
Proof.
  intros Hne. apply sort_in, last_in.
  intros E. destruct versions as [|x l]; [congruence|].
  assert (In x (sort (x :: l))) as Hin by (apply sort_in; now left).
  rewrite E in Hin. contradiction.
Qed.

Lemma components_of_render (segs : list string) :
  Forall (fun seg => entry_name seg = true) segs ->
  segs <> [] ->
  Path.components (Path.render segs) = segs.
Proof.
  intros H Hne. unfold Path.components. rewrite split_render.
  - now rewrite normalizeString_entry_names.
  - assumption.
  - eapply Forall_impl; [|exact H]. intros. now apply entry_name_slash_free.
Qed.

Lemma stat_prefix_is_dir (p q : list string) (fs : Fs.node) :
  q <> [] ->
  present (Fs.stat (p ++ q) fs) ->
  exists entries, Fs.stat p fs = Fs.IsDir entries.
Proof.
  revert fs. induction p as [|seg rest IH]; intros fs Hq H.
  - destruct fs as [|entries]; [|simpl; eauto].
    destruct q; [congruence | contradiction].
  - destruct fs as [|entries]; [contradiction|]. simpl in *.
    destruct (Fs.lookup seg entries); [now apply IH | contradiction].
Qed.

Lemma stat_below_dir (p q : list string) (fs : Fs.node)
  (entries : list (string * Fs.node)) :
  Fs.stat p fs = Fs.IsDir entries ->
  Fs.stat (p ++ q) fs = Fs.stat q (Fs.Dir entries).
Proof.
  revert fs. induction p as [|seg rest IH]; intros fs H.
  - destruct fs; [discriminate|]. simpl in H. now inversion H.
  - destruct fs as [|es]; [discriminate|]. simpl in *.
    destruct (Fs.lookup seg es); [now apply IH | discriminate].
Qed.

(** What [getDetails] answers once [list] has reported something
    and the manifest of what it takes for the latest version cannot be
    read. *)
Lemma getDetails_of_unreadable (now : string) (req : Request) (fs : Fs.node)
  (versions : list string) (e : errno) :
  FilesystemStorage.list ("components/" ++ params_name req) fs
  = (Return versions, fs) ->
  versions <> [] ->
  fst (FilesystemStorage.read
         (ComponentsController.manifest_path (params_name req)
            (last (sort versions) "")) fs)
  = Throw (ErrnoException e) ->
  App.controller_getDetails now req App.next fs
  = (Return {| status := 500;
               body := Failure "INTERNAL_ERROR" "Internal server error" |},
     fs).
Proof.
  intros Hlist Hne Hread.
  unfold App.controller_getDetails, ComponentsController.getDetails,
    Fs.try_catch, Fs.bind.
  inject_storage. cbv zeta. rewrite Hlist.
  destruct versions as [|x l]; [congruence|].
  change (List.length (x :: l) =? 0)%nat with false. cbv beta iota.
  pose proof (read_only_read
                (ComponentsController.manifest_path (params_name req)
                   (last (sort (x :: l)) "")) fs) as Hro.
  destruct (FilesystemStorage.read _ fs) as [[data|e'] fs1].
  - discriminate.
  - simpl in Hro, Hread. subst fs1. inversion Hread; subst e'. reflexivity.
Qed.

(** In a registry layout no manifest can be read at the path
    [getDetails] builds from a path that [list] reports: it is more
    than four levels deep. *)
Lemma listed_path_is_unreadable (fs : Fs.node) (name : string)
  (q : list string) :
  registry_layout fs = true ->
  entry_name name = true ->
  Forall (fun seg => entry_name seg = true) q ->
  q <> [] ->
  exists e,
    fst (FilesystemStorage.read
           (ComponentsController.manifest_path name
              (Path.render ["components"; name] ++ "/" ++ Path.render q)) fs)
    = Throw (ErrnoException e).
Proof.
  intros Hl Hn Hq Hqne.
  rewrite read_unfold, components_manifest_path.
  assert (Forall (fun seg => entry_name seg = true)
            (["components"; name] ++ ["components"; name] ++ q)) as Hall.
  { repeat (constructor; [assumption || reflexivity|]). assumption. }
  assert (("components/" ++ name ++ "/"
           ++ Path.render ["components"; name] ++ "/" ++ Path.render q)%string
          = Path.render (["components"; name] ++ ["components"; name] ++ q))
    as ->.
  { rewrite (render_app ["components"; name]) by (discriminate || now destruct q).
    rewrite (render_app ["components"; name]) by (discriminate || assumption).
    reflexivity. }
  rewrite components_of_render by (assumption || discriminate).
  destruct (layout_depth fs
              ((["components"; name] ++ ["components"; name] ++ q)
               ++ ["component.json"]) Hl) as [-> | ->].
  - rewrite !length_app. simpl. lia.
  - now exists ENOENT.
  - now exists ENOTDIR.
Qed.

(** C1 (the code fails the claim).  In a store with the registry
    layout, for every component with a published version (name and
    version entry names), [GET /components/{name}] does not serve the
    greatest published version: it answers HTTP 500 with code
    [INTERNAL_ERROR].  [list] reports paths, directories and manifests
    alike, each with the prefix; the greatest of these is taken for
    the latest version, and no manifest exists under that name. *)
Theorem latest_of_published_component_is_not_served (now name version : string)
  (fs : Fs.node) :
  registry_layout fs = true ->
  entry_name name = true ->
  entry_name version = true ->
  published name version fs = true ->
  App.app now App.GET_component (App.details_request name) fs
  = (Return {| status := 500;
               body := Failure "INTERNAL_ERROR" "Internal server error" |},
     fs).
Proof.
  intros Hl Hn Hv Hp.
  unfold published in Hp.
  rewrite read_unfold, manifest_path_no_trailing in Hp.
  rewrite components_of_manifest in Hp by assumption.
  destruct (Fs.stat ["components"; name; version; "component.json"] fs)
    as [content| | |] eqn:Es; try discriminate.
  assert (Forall (fun seg => entry_name seg = true) ["components"; name])
    as Hps by now repeat constructor.
  destruct (stat_prefix_is_dir ["components"; name]
              [version; "component.json"] fs) as [versions Hd];
    [discriminate | simpl app; now rewrite Es |].
  pose proof (stat_below_dir _ [version; "component.json"] _ _ Hd) as Hbelow.
  simpl app in Hbelow. rewrite Es in Hbelow. symmetry in Hbelow.
  assert (In (Path.render [version]) (Fs.listing (Fs.Dir versions))) as Hin.
  { apply listing_complete; [discriminate|].
    destruct (stat_prefix_is_dir [version] ["component.json"] (Fs.Dir versions))
      as [es ->]; [discriminate | simpl app; now rewrite Hbelow | exact I]. }
  pose proof (list_of_directory ["components"; name] fs versions) as Hlist.
  rewrite components_of_render in Hlist by (assumption || discriminate).
  specialize (Hlist ltac:(discriminate) Hps (layout_well_named _ Hl) Hd).
  set (listed := map (fun entry =>
                        (Path.render ["components"; name] ++ "/" ++ entry)%string)
                   (Fs.listing (Fs.Dir versions))) in *.
  assert (listed <> []) as Hne.
  { intros E. apply (in_map (fun entry =>
                     (Path.render ["components"; name] ++ "/" ++ entry)%string))
      in Hin. fold listed in Hin. rewrite E in Hin. contradiction. }
  pose proof (latest_is_listed listed Hne) as Hlatest.
  apply in_map_iff in Hlatest as (entry & Hentry & Hlisted).
  pose proof (listing_well_named (Fs.Dir versions)
                (stat_well_named _ _ _ (layout_well_named _ Hl) Hd)) as Hnames.
  rewrite Forall_forall in Hnames.
  destruct (Hnames _ Hlisted) as (q & Hqne & Hq & ->).
  destruct (listed_path_is_unreadable fs name q Hl Hn Hq Hqne) as [e He].
  rewrite Hentry in He.
  simpl App.app.
  apply (getDetails_of_unreadable now (App.details_request name) fs listed e);
    assumption.
Qed.

Lemma latest_of_published_component_is_not_served_witness :
  published "button" "1.0.0" button_store = true
  /\ App.app "" App.GET_component (App.details_request "button") button_store
     = (Return {| status := 500;
                  body := Failure "INTERNAL_ERROR" "Internal server error" |},
        button_store).
Proof.
  split; [reflexivity|].
  exact (latest_of_published_component_is_not_served "" "button" "1.0.0"
           button_store eq_refl eq_refl eq_refl eq_refl).
Defined.

Lemma for_of_skips {A B : Type} (xs : list A) (acc : B)
  (body : B -> A -> Fs.IO B) (fs : Fs.node) :
  (forall x, In x xs -> body acc x fs = (Return acc, fs)) ->
  ComponentsController.for_of xs acc body fs = (Return acc, fs).
Proof.
  induction xs as [|x xs IH]; intros H; simpl; [reflexivity|].
  unfold Fs.bind. rewrite (H x) by now left.
  apply IH. intros y Hy. apply H. now right.
Qed.

Lemma slice_nil {A : Type} (start finish : Z) : slice (@nil A) start finish = [].
Proof. unfold slice. now rewrite skipn_nil, firstn_nil. Qed.

Lemma layout_components_dir (fs : Fs.node) :
  registry_layout fs = true ->
  Fs.stat ["components"] fs = Fs.Missing
  \/ exists components, Fs.stat ["components"] fs = Fs.IsDir components.
Proof.
  intros Hl.
  destruct fs as [|[|[dir [|components]] [|]]]; try discriminate.
  - now left.
  - simpl in Hl. apply andb_prop in Hl as [Hdir _]. simpl. rewrite Hdir. eauto.
Qed.

(** In a registry layout without a component called [components],
    nothing is listed under the doubled prefix that the [list] handler
    asks for. *)
Lemma doubled_prefix_lists_nothing (fs : Fs.node) (q : list string) :
  Fs.stat ["components"; "components"] fs = Fs.Missing ->
  Forall (fun seg => entry_name seg = true) q ->
  q <> [] ->
  FilesystemStorage.list
    ("components/" ++ Path.render ["components"] ++ "/" ++ Path.render q) fs
  = (Return [], fs).
Proof.
  intros Hmiss Hq Hqne.
  assert (("components/" ++ Path.render ["components"] ++ "/" ++ Path.render q)%string
          = Path.render (["components"; "components"] ++ q)) as ->.
  { now rewrite (render_app ["components"; "components"]) by (discriminate || assumption). }
  rewrite list_unfold, components_of_render.
  - now rewrite (stat_missing_below _ q _ Hmiss).
  - repeat (constructor; [reflexivity|]). assumption.
  - discriminate.
Qed.

(** C2 (the code fails the claim).  In a store with the registry
    layout and no component called [components], whatever is
    published, [GET /components] lists nothing: it answers HTTP 200
    with [components: []] and [total: 0] for every page and page
    size.  The handler asks [list] for [components/] followed by a path
    that already starts with [components/]. *)
Theorem list_reports_no_component (now : string) (page pageSize : option string)
  (fs : Fs.node) :
  registry_layout fs = true ->
  Fs.stat ["components"; "components"] fs = Fs.Missing ->
  App.app now App.GET_components (App.list_request page pageSize) fs
  = (Return
       {| status := 200;
          body :=
            Data (JObj [("components", JArr []);
                        ("total", JNum 0);
                        ("page", JNum (parseInt_or page 1));
                        ("pageSize", JNum (parseInt_or pageSize 10))]) |},
     fs).
Proof.
  intros Hl Hmiss. simpl App.app.
  unfold App.controller_list, ComponentsController.list, Fs.try_catch.
  inject_storage. cbv zeta. simpl query_page. simpl query_pageSize.
  set (p := parseInt_or page 1). set (s := parseInt_or pageSize 10).
  unfold Fs.bind at 1.
  assert (exists dirs,
             FilesystemStorage.list "components" fs = (Return dirs, fs)
             /\ forall dir, In dir dirs ->
                  FilesystemStorage.list ("components/" ++ dir) fs
                  = (Return [], fs)) as (dirs & -> & Hdirs).
  { destruct (layout_components_dir fs Hl) as [Hm|[components Hd]].
    - exists []. split; [|contradiction].
      rewrite list_unfold. change (Path.components "components") with ["components"].
      now rewrite Hm.
    - pose proof (list_of_directory ["components"] fs components) as Hlist.
      change (Path.components (Path.render ["components"])) with ["components"]
        in Hlist.
      specialize (Hlist ltac:(discriminate) ltac:(now repeat constructor)
                    (layout_well_named _ Hl) Hd).
      eexists. split; [exact Hlist|].
      intros dir Hin. apply in_map_iff in Hin as (entry & <- & Hentry).
      pose proof (listing_well_named (Fs.Dir components)
                    (stat_well_named _ _ _ (layout_well_named _ Hl) Hd)) as Hn.
      rewrite Forall_forall in Hn.
      destruct (Hn _ Hentry) as (q & Hqne & Hq & ->).
      now apply doubled_prefix_lists_nothing. }
  unfold Fs.bind at 1.
  rewrite for_of_skips.
  - rewrite slice_nil. reflexivity.
  - intros dir Hin. unfold Fs.bind. now rewrite (Hdirs dir Hin).
Qed.

Lemma list_reports_no_component_witness :
  published "button" "1.0.0" button_store = true
  /\ App.app "" App.GET_components (App.list_request None None) button_store
     = (Return
          {| status := 200;
             body :=
               Data (JObj [("components", JArr []);
                           ("total", JNum 0);
                           ("page", JNum 1);
                           ("pageSize", JNum 10)]) |},
        button_store).
Proof.
  split; [reflexivity|].
  exact (list_reports_no_component "" None None button_store eq_refl eq_refl).
Defined.

(* ===================================================================== *)
(** * The dependency resolver: cycles *)
(* ===================================================================== *)

Module ResolverFacts.
Import Resolver.




























Example resolve_A_names_the_cycle :
  resolve same_range registry_ABC (ref_to "A")
  = Some (inl (CyclicDependency ["A"; "B"; "C"; "A"])).
Proof. reflexivity. Qed.

Example resolve_of_a_diamond :
  match resolve same_range
          [component "A" ["B"; "C"]; component "B" ["D"];
           component "C" ["D"]; component "D" []] (ref_to "A") with
  | Some (inr result) =>
      map fst (flattenedComponents result) = ["A"; "B"; "C"; "D"]
  | _ => False
  end.
Proof. reflexivity. Qed.

End ResolverFacts.

(* ===================================================================== *)
(** * The installation orchestrator: rollback *)
(* ===================================================================== *)

Module InstallerFacts.
Import Installer.

Lemma put_same (path c : string) (files : Files) : put path c files path = Some c.
Proof. unfold put. now rewrite String.eqb_refl. Qed.

Lemma put_other (path c p : string) (files : Files) :
  p <> path -> put path c files p = files p.
Proof. intros H. unfold put. apply String.eqb_neq in H. now rewrite H. Qed.

Lemma remove_same (path : string) (files : Files) : remove path files path = None.
Proof. unfold remove. now rewrite String.eqb_refl. Qed.

Lemma remove_other (path p : string) (files : Files) :
  p <> path -> remove path files p = files p.
Proof. intros H. unfold remove. apply String.eqb_neq in H. now rewrite H. Qed.

(** Staging touches temporary paths only. *)
Lemma stage_other (staged : list StagedFile) (files : Files) (p : string) :
  ~ In p (map tempPath staged) -> stage staged files p = files p.
Proof.
  revert files. induction staged as [|s rest IH]; intros files H; simpl.
  - reflexivity.
  - rewrite IH by (intros Hin; apply H; now right).
    apply put_other. intros E. apply H. now left.
Qed.

(** What rollback leaves at a path: the prior content its oldest
    journal entry holds, or what was there. *)
Lemma rollback_at (journal : list (string * option string)) (files : Files)
  (p : string) :
  rollback journal files p
  = match oldest p journal with
    | Some prior => prior
    | None => files p
    end.
Proof.
  revert files. induction journal as [|[target prior] older IH]; intros files.
  - reflexivity.
  - simpl. rewrite IH. destruct (oldest p older); [reflexivity|].
    destruct (String.eqb_spec target p) as [->|Hne].
    + destruct prior; [apply put_same | apply remove_same].
    + destruct prior; [apply put_other | apply remove_other]; congruence.
Qed.

Lemma discard_at (staged : list StagedFile) (files : Files) (p : string) :
  discard staged files p
  = if existsb (fun s => tempPath s =? p) staged then None else files p.
Proof.
  revert files. induction staged as [|s rest IH]; intros files; simpl.
  - reflexivity.
  - rewrite IH. destruct (existsb _ rest).
    + now rewrite orb_true_r.
    + rewrite orb_false_r. destruct (String.eqb_spec (tempPath s) p) as [<-|Hne].
      * apply remove_same.
      * apply remove_other. congruence.
Qed.

Lemma oldest_none (journal : list (string * option string)) (p : string) :
  (forall entry, In entry journal -> fst entry <> p) ->
  oldest p journal = None.
Proof.
  induction journal as [|[target prior] older IH]; intros H; [reflexivity|].
  simpl. rewrite IH by (intros e He; apply H; now right).
  specialize (H (target, prior) (or_introl eq_refl)). simpl in H.
  apply String.eqb_neq in H. now rewrite H.
Qed.

(** Promotion, however far it gets, keeps two things true of every
    path that is no temporary path: undoing the journal gives back what
    was there before the install; and of every temporary path that is
    no target: once its file is promoted it stays away. *)
Lemma promote_broken (forced : nat -> bool) (temps targets : list string)
  (before : Files) (staged : list StagedFile) :
  (forall t, In t temps -> ~ In t targets) ->
  incl (map tempPath staged) temps ->
  incl (map targetPath staged) targets ->
  forall (i : nat) (files : Files) (journal : list (string * option string))
         (gone : list string),
    journal_of_targets targets journal ->
    (forall p, ~ In p temps ->
       match oldest p journal with
       | Some prior => prior
       | None => files p
       end = before p) ->
    (forall t, In t gone -> In t temps /\ files t = None) ->
    forall files' journal' failed unpromoted,
      promote forced i staged files journal
      = Broken files' journal' failed unpromoted ->
      (forall p, ~ In p temps -> rollback journal' files' p = before p)
      /\ (forall t, In t temps ->
            In t gone \/ In t (map tempPath staged) ->
            discard unpromoted (rollback journal' files') t = None)
      /\ incl unpromoted staged.
Proof.
  intros Hapart.
  induction staged as [|s rest IH];
    intros Htemps Htargets i files journal gone Hj Hinv Hgone
           files' journal' failed unpromoted H; [discriminate|].
  assert (forall q, In q temps -> oldest q journal = None) as Hno.
  { intros q Hq. apply oldest_none. intros e He E.
    apply (Hapart q Hq). rewrite <- E. now apply Hj. }
  assert (In (tempPath s) temps) as Hs by (apply Htemps; now left).
  assert (In (targetPath s) targets) as Ht by (apply Htargets; now left).
  simpl in H.
  assert ((forall p, ~ In p temps -> rollback journal files p = before p)
          /\ (forall t, In t temps ->
                In t gone \/ In t (map tempPath (s :: rest)) ->
                discard (s :: rest) (rollback journal files) t = None)
          /\ incl (s :: rest) (s :: rest))
    as Hstop.
  { split; [|split; [|apply incl_refl]].
    - intros p Hp. rewrite rollback_at. now apply Hinv.
    - intros t Htin Hwhere. rewrite discard_at.
      destruct (existsb (fun s0 => tempPath s0 =? t) (s :: rest)) eqn:Ex;
        [reflexivity|].
      rewrite rollback_at, (Hno t Htin).
      destruct Hwhere as [Hg|Hin]; [now apply Hgone|].
      exfalso. apply in_map_iff in Hin as (s0 & <- & Hs0).
      assert (existsb (fun s1 => tempPath s1 =? tempPath s0) (s :: rest) = true)
        as Ex'.
      { apply existsb_exists. exists s0. split; [exact Hs0 | apply String.eqb_refl]. }
      congruence. }
  destruct (forced i).
  { inversion H; subst. exact Hstop. }
  unfold rename in H.
  destruct (files (tempPath s)) as [c|] eqn:Ec.
  2:{ inversion H; subst. exact Hstop. }
  assert (tempPath s <> targetPath s) as Hdiff.
  { intros E. apply (Hapart _ Hs). now rewrite E. }
  specialize (IH (fun x Hx => Htemps x (or_intror Hx))
                (fun x Hx => Htargets x (or_intror Hx))
                (S i)
                (remove (tempPath s) (put (targetPath s) c files))
                ((targetPath s, files (targetPath s)) :: journal)
                (tempPath s :: gone)).
  destruct IH with (4 := H) as (Hkeep & Htemp & Hincl).
  - intros e [<-|He]; [exact Ht | now apply Hj].
  - intros p Hp. simpl. specialize (Hinv p Hp).
    destruct (oldest p journal) as [prior|]; [exact Hinv|].
    destruct (String.eqb_spec (targetPath s) p) as [<-|Hne]; [exact Hinv|].
    rewrite remove_other, put_other; [exact Hinv | congruence |].
    intros E. apply Hp. now rewrite E.
  - intros t [<-|Hg].
    + split; [exact Hs | apply remove_same].
    + destruct (Hgone t Hg) as [Htin Hnone]. split; [exact Htin|].
      destruct (String.eqb_spec t (tempPath s)) as [->|Hne];
        [apply remove_same|].
      rewrite remove_other, put_other; [exact Hnone | | exact Hne].
      intros E. apply (Hapart t Htin). now rewrite E.
  - split; [exact Hkeep|]. split; [|now apply incl_tl].
    intros t Htin [Hg|[<-|Hin]]; apply Htemp; auto; left; [now right | now left].
Qed.

Lemma temps_apart_spec (staged : list StagedFile) :
  temps_apart staged = true ->
  forall t, In t (map tempPath staged) -> ~ In t (map targetPath staged).
Proof.
  unfold temps_apart. intros H t Ht Htarget.
  apply in_map_iff in Ht as (s & <- & Hs).
  apply in_map_iff in Htarget as (s' & E & Hs').
  rewrite forallb_forall in H. specialize (H s Hs).
  rewrite forallb_forall in H. specialize (H s' Hs').
  apply negb_true_iff, String.eqb_neq in H. congruence.
Qed.

(** C7.  For every install in which the promotion of some staged
    file fails partway (the install reports [PromotionFailure]), after
    rollback every target path of the transaction holds what it held
    before the install, restored or deleted, and no temporary file of
    the transaction is left.  The temporary paths are beside the
    targets: none of them is a target. *)
Theorem failed_promotion_is_rolled_back (npmPackages : list (string * string))
  (staged : list StagedFile) (force : bool) (forced : nat -> bool)
  (files files' : Files) (target : string) :
  temps_apart staged = true ->
  install npmPackages staged force forced files
  = (inl (PromotionFailure target), files') ->
  forall s, In s staged ->
    files' (targetPath s) = files (targetPath s)
    /\ files' (tempPath s) = None.
Proof.
  intros Hapart H s Hs.
  pose proof (temps_apart_spec staged Hapart) as Hdisjoint.
  unfold install in H.
  destruct (negb force && _); [discriminate|].
  destruct (promote forced 0 staged (stage staged files) [])
    as [files1 journal|files1 journal failed unpromoted] eqn:Ep; [discriminate|].
  inversion H; subst files'. clear H.
  destruct (promote_broken forced (map tempPath staged) (map targetPath staged)
              files staged Hdisjoint (incl_refl _) (incl_refl _)
              0 (stage staged files) [] [])
    with (4 := Ep) as (Hkeep & Htemp & Hincl).
  - intros e [].
  - intros p Hp. simpl. now apply stage_other.
  - intros t [].
  - assert (~ In (targetPath s) (map tempPath staged)) as Hnot.
    { intros Hin. apply (Hdisjoint _ Hin). now apply in_map. }
    split.
    + rewrite discard_at.
      destruct (existsb (fun s0 => tempPath s0 =? targetPath s) unpromoted) eqn:Ex.
      * exfalso. apply existsb_exists in Ex as (s0 & Hs0 & E).
        apply String.eqb_eq in E. apply Hnot. rewrite <- E.
        apply in_map. now apply Hincl.
      * now apply Hkeep.
    + apply Htemp; [|right]; now apply in_map.
Qed.

(** A forced failure breaks the promotion. *)
Lemma forced_failure_breaks_promotion (forced : nat -> bool) (k : nat)
  (staged : list StagedFile) :
  forced k = true ->
  forall (i : nat) (files : Files) (journal : list (string * option string)),
    i <= k < i + List.length staged ->
    exists files' journal' failed unpromoted,
      promote forced i staged files journal
      = Broken files' journal' failed unpromoted.
Proof.
  intros Hk. induction staged as [|s rest IH]; intros i files journal Hi.
  - simpl in Hi. lia.
  - simpl. destruct (forced i) eqn:Ef; [eauto 6|].
    destruct (rename (tempPath s) (targetPath s) files); [|eauto 6].
    apply IH. simpl in Hi.
    assert (i <> k) by (intros ->; congruence). lia.
Qed.

Lemma failed_promotion_is_rolled_back_witness :
  fst (install [] five_files true third_fails project)
  = inl (PromotionFailure "src/ui/dialog.tsx")
  /\ forall s, In s five_files ->
       snd (install [] five_files true third_fails project) (targetPath s)
       = project (targetPath s)
       /\ snd (install [] five_files true third_fails project) (tempPath s)
          = None.
Proof.
  split; [reflexivity|].
  exact (failed_promotion_is_rolled_back [] five_files true third_fails project
           (snd (install [] five_files true third_fails project))
           "src/ui/dialog.tsx" eq_refl eq_refl).
Defined.

Example install_without_force_conflicts :
  fst (install [] five_files false third_fails project)
  = inl (FileConflict ["src/ui/card.tsx"]).
Proof. reflexivity. Qed.

End InstallerFacts.

(* ===================================================================== *)
(** * The registry layout is what publishing builds *)
(* ===================================================================== *)

Lemma forallb_set_entry (P : string * Fs.node -> bool) (name : string)
  (child : Fs.node) (entries : list (string * Fs.node)) :
  forallb P entries = true ->
  P (name, child) = true ->
  forallb P (Fs.set_entry name child entries) = true.
Proof.
  intros H Hc. induction entries as [|[k old] rest IH]; simpl.
  - now rewrite Hc.
  - simpl in H. apply andb_prop in H as [Hk Hrest].
    destruct (k =? name); simpl.
    + now rewrite Hc, Hrest.
    + now rewrite Hk, IH.
Qed.

Lemma set_entry_not_nil (name : string) (child : Fs.node)
  (entries : list (string * Fs.node)) :
  Fs.set_entry name child entries <> [].
Proof.
  destruct entries as [|[k old] rest]; simpl; [discriminate|].
  destruct (k =? name); discriminate.
Qed.

Lemma component_dir_set_entry (version : string) (vd : Fs.node)
  (versions : list (string * Fs.node)) :
  forallb (fun entry => entry_name (fst entry) && version_dir (snd entry))
    versions = true ->
  entry_name version = true ->
  version_dir vd = true ->
  component_dir (Fs.Dir (Fs.set_entry version vd versions)) = true.
Proof.
  intros H Hv Hvd. unfold component_dir.
  destruct (Fs.set_entry version vd versions) as [|first others] eqn:E.
  { now apply set_entry_not_nil in E. }
  rewrite <- E. apply forallb_set_entry; [exact H|]. simpl. now rewrite Hv, Hvd.
Qed.

Lemma set_entry_twice (name : string) (a b : Fs.node)
  (entries : list (string * Fs.node)) :
  Fs.set_entry name a (Fs.set_entry name b entries) = Fs.set_entry name a entries.
Proof.
  induction entries as [|[k old] rest IH]; simpl.
  - now rewrite String.eqb_refl.
  - destruct (k =? name) eqn:E; simpl.
    + now rewrite String.eqb_refl.
    + now rewrite E, IH.
Qed.

(** The tree of one component after [mkdir -p] of a version that is
    not there and [writeFile] of its manifest. *)
Lemma write_version (version : string) (content : buffer)
  (versions : list (string * Fs.node)) :
  Fs.lookup version versions = None ->
  Fs.make_dirs [version] (Fs.Dir versions)
  = inr (Fs.Dir (Fs.set_entry version (Fs.Dir []) versions))
  /\ Fs.store [version; "component.json"] false content
       (Fs.Dir (Fs.set_entry version (Fs.Dir []) versions))
     = inr (Fs.Dir
              (Fs.set_entry version
                 (Fs.Dir [("component.json", Fs.File content)]) versions)).
Proof.
  intros Hnone. split.
  - simpl. now rewrite Hnone.
  - rewrite store_cons, lookup_set_entry_same. simpl.
    now rewrite set_entry_twice.
Qed.

(** The tree of the components after [mkdir -p] of a version that is
    not there under a component and [writeFile] of its manifest: the
    component has the versions it had and the new one. *)
Lemma write_component (name version : string) (content : buffer)
  (components : list (string * Fs.node)) :
  forallb (fun entry => entry_name (fst entry) && component_dir (snd entry))
    components = true ->
  entry_name name = true ->
  entry_name version = true ->
  Fs.stat [name; version; "component.json"] (Fs.Dir components) = Fs.Missing ->
  exists made written,
    Fs.make_dirs [name; version] (Fs.Dir components) = inr (Fs.Dir made)
    /\ Fs.store [name; version; "component.json"] false content (Fs.Dir made)
       = inr (Fs.Dir written)
    /\ forallb (fun entry => entry_name (fst entry) && component_dir (snd entry))
         written = true.
Proof.
  intros Hall Hn Hv Hmiss.
  destruct (Fs.lookup name components) as [child|] eqn:El.
  - destruct (lookup_forallb _ _ _ _ Hall El) as (k & _ & Hk).
    apply andb_prop in Hk as [_ Hc].
    destruct child as [|[|first others]]; try discriminate.
    unfold component_dir in Hc. cbn [snd] in Hc.
    assert (Fs.lookup version (first :: others) = None) as Hnone.
    { simpl in Hmiss. rewrite El in Hmiss.
      change (Fs.stat [version; "component.json"] (Fs.Dir (first :: others)))
        with (match Fs.lookup version (first :: others) with
              | Some vd => Fs.stat ["component.json"] vd
              | None => Fs.Missing
              end) in Hmiss.
      destruct (Fs.lookup version (first :: others)) as [vd|] eqn:Ev;
        [|reflexivity].
      destruct (lookup_forallb _ _ _ _ Hc Ev) as (k' & _ & Hk').
      apply andb_prop in Hk' as [_ Hvd].
      destruct vd as [|[|[file [c0|]] [|]]]; try discriminate.
      simpl in Hvd. apply String.eqb_eq in Hvd. subst file. discriminate. }
    destruct (write_version version content (first :: others) Hnone)
      as [Hmake Hstore].
    eexists. eexists. split; [|split].
    + change (Fs.make_dirs [name; version] (Fs.Dir components))
        with (match Fs.lookup name components with
              | Some child =>
                  match Fs.make_dirs [version] child with
                  | inr child' => inr (Fs.Dir (Fs.set_entry name child' components))
                  | inl e => inl e
                  end
              | None =>
                  inr (Fs.Dir (Fs.set_entry name (Fs.fresh_dirs [version])
                                 components))
              end).
      rewrite El, Hmake. reflexivity.
    + rewrite store_cons, lookup_set_entry_same, Hstore. reflexivity.
    + rewrite set_entry_twice. apply forallb_set_entry; [exact Hall|].
      cbn [fst snd]. rewrite Hn. cbn [andb].
      now apply component_dir_set_entry.
  - eexists. eexists. split; [|split].
    + simpl. rewrite El. reflexivity.
    + rewrite store_cons, lookup_set_entry_same. simpl.
      rewrite (String.eqb_refl version). simpl. reflexivity.
    + rewrite set_entry_twice. apply forallb_set_entry; [exact Hall|].
      simpl. now rewrite Hn, Hv.
Qed.

(** Publishing under entry names keeps the registry layout. *)
Theorem publish_keeps_layout (now name version : string) (req : Request)
  (fs : Fs.node) :
  registry_layout fs = true ->
  declares (req_body req) name version ->
  entry_name name = true ->
  entry_name version = true ->
  registry_layout (snd (App.app now App.POST_components req fs)) = true.
Proof.
  intros Hl Hdecl Hn Hv. simpl App.app. unfold App.validateComponent.
  destruct (Zod.parse Types.ComponentSchema (req_body req))
    as [component|] eqn:Hparse; [|exact Hl].
  rewrite (create_unfold _ _ _ _ _ Hparse Hdecl).
  rewrite read_unfold, manifest_path_no_trailing.
  rewrite components_of_manifest by assumption.
  destruct (Fs.stat ["components"; name; version; "component.json"] fs)
    eqn:Es; try exact Hl.
  rewrite write_unfold, manifest_path_no_trailing.
  rewrite components_of_manifest by assumption.
  change (removelast ["components"; name; version; "component.json"])
    with ["components"; name; version].
  assert (exists fs1 fs2,
             Fs.make_dirs ["components"; name; version] fs = inr fs1
             /\ Fs.store ["components"; name; version; "component.json"] false
                  (JSON_stringify component) fs1 = inr fs2
             /\ registry_layout fs2 = true) as (fs1 & fs2 & -> & -> & Hl2).
  { destruct fs as [|[|[dir [|components]] [|]]]; try discriminate.
    - eexists. eexists. split; [reflexivity|]. split.
      + simpl. rewrite (String.eqb_refl name). simpl.
        rewrite (String.eqb_refl version). reflexivity.
      + simpl. now rewrite Hn, Hv.
    - simpl in Hl. apply andb_prop in Hl as [Hdir Hall].
      apply String.eqb_eq in Hdir. subst dir.
      destruct (write_component name version (JSON_stringify component)
                  components Hall Hn Hv) as (made & written & Hm & Hs & Hw).
      { simpl in Es. exact Es. }
      eexists. eexists. split; [|split].
      + change (Fs.make_dirs ["components"; name; version]
                  (Fs.Dir [("components", Fs.Dir components)]))
          with (match Fs.make_dirs [name; version] (Fs.Dir components) with
                | inr child' =>
                    inr (Fs.Dir [("components", child')])
                | inl e => inl e
                end).
        rewrite Hm. reflexivity.
      + rewrite store_cons.
        change (Fs.lookup "components" [("components", Fs.Dir made)])
          with (Some (Fs.Dir made)).
        cbv beta iota. rewrite Hs. reflexivity.
      + simpl. exact Hw. }
  exact Hl2.
Qed.

(** X15.  Every store that is built from the empty one by
    publishing components under entry names has the registry layout:
    [components/<name>/<version>/component.json] and nothing else. *)
Lemma built_has_layout (fs : Fs.node) : built fs -> registry_layout fs = true.
Proof.
  induction 1 as [|now name version req fs _ IH Hd Hn Hv]; [reflexivity|].
  now apply (publish_keeps_layout now name version).
Qed.

Lemma built_has_layout_witness : registry_layout button_store = true.
Proof.
  apply (built_has_layout button_store).
  apply (built_publish "" "button" "1.0.0" (App.publish_request button_1_0_0)
           Fs.empty built_empty); [|reflexivity|reflexivity].
  exists [("metadata",
           JObj [("name", JStr "button"); ("version", JStr "1.0.0");
                 ("description", JStr "A test button component")]);
          ("files",
           JArr [JObj [("path", JStr "index.ts");
                       ("content", JStr "export const Button = () => {}");
                       ("type", JStr "typescript")]])],
         [("name", JStr "button"); ("version", JStr "1.0.0");
          ("description", JStr "A test button component")].
  repeat split.
Defined.

(* ===================================================================== *)
(** * The storage provider: deleting, overwriting, listing *)
(* ===================================================================== *)

Lemma lookup_remove_entry_same (name : string)
  (entries : list (string * Fs.node)) :
  Fs.lookup name (Fs.remove_entry name entries) = None.
Proof.
  induction entries as [|[k old] rest IH]; simpl; [reflexivity|].
  destruct (k =? name) eqn:E; [exact IH|]. simpl. now rewrite E.
Qed.


Lemma remove_cons (seg next : string) (rest : list string)
  (entries : list (string * Fs.node)) :
  Fs.remove (seg :: next :: rest) (Fs.Dir entries)
  = match Fs.lookup seg entries with
    | Some child =>
        match Fs.remove (next :: rest) child with
        | inr child' => inr (Fs.Dir (Fs.set_entry seg child' entries))
        | inl e => inl e
        end
    | None => inl ENOENT
    end.
Proof. reflexivity. Qed.

(** [remove] takes a regular file away. *)
Lemma remove_of_file (segs : list string) (fs : Fs.node) (content : buffer) :
  segs <> [] ->
  Fs.stat segs fs = Fs.IsFile content ->
  exists fs', Fs.remove segs fs = inr fs' /\ Fs.stat segs fs' = Fs.Missing.
Proof.
  revert fs. induction segs as [|seg rest IH]; intros fs Hne H; [congruence|].
  destruct fs as [|entries]; [discriminate|].
  simpl in H. destruct (Fs.lookup seg entries) as [child|] eqn:El; [|discriminate].
  destruct rest as [|next rest].
  - simpl in *. rewrite El. destruct child; [|discriminate].
    eexists. split; [reflexivity|]. simpl. now rewrite lookup_remove_entry_same.
  - rewrite remove_cons, El.
    destruct (IH child) as (child' & -> & Hs); [discriminate | exact H |].
    eexists. split; [reflexivity|].
    simpl. rewrite lookup_set_entry_same. exact Hs.
Qed.

(** [remove] fails wherever there is no regular file. *)
Lemma remove_of_no_file (segs : list string) (fs : Fs.node) :
  (forall content, Fs.stat segs fs <> Fs.IsFile content) ->
  exists e, Fs.remove segs fs = inl e
            /\ (Fs.stat segs fs = Fs.Missing -> e = ENOENT).
Proof.
  revert fs. induction segs as [|seg rest IH]; intros fs H.
  - destruct fs as [content|entries].
    + now destruct (H content).
    + exists EISDIR. split; [reflexivity | discriminate].
  - destruct fs as [content|entries].
    + exists ENOTDIR. split; [reflexivity | discriminate].
    + simpl in H. destruct rest as [|next rest].
      * simpl in *. destruct (Fs.lookup seg entries) as [[content|sub]|].
        -- now destruct (H content).
        -- exists EISDIR. split; [reflexivity | discriminate].
        -- exists ENOENT. split; reflexivity.
      * rewrite remove_cons. cbn [Fs.stat].
        destruct (Fs.lookup seg entries) as [child|].
        -- destruct (IH child H) as (e & -> & He). exists e. split; auto.
        -- exists ENOENT. split; reflexivity.
Qed.


Lemma delete_unfold (path : string) (fs : Fs.node) :
  FilesystemStorage.delete path fs
  = match Fs.remove (Path.components path) fs with
    | inr fs' =>
        if Path.trailingSeparator (Path.join FilesystemStorage.rootDir path)
        then (Throw (ErrnoException ENOTDIR), fs)
        else (Return tt, fs')
    | inl e => (Throw (ErrnoException e), fs)
    end.
Proof.
  unfold FilesystemStorage.delete, Fs.unlink.
  now rewrite components_join_rootDir.
Qed.

(** A path that names the root is the root, written with its slash. *)
Lemma join_rootDir_root (p : string) :
  Path.components p = [] ->
  Path.join FilesystemStorage.rootDir p = "/".
Proof.
  intros H. rewrite join_rootDir. destruct (p =? ""); [reflexivity|].
  unfold Path.normalize. cbn [String.append String.eqb Ascii.eqb Bool.eqb
    Path.isAbsolute Path.slash negb Path.split].
  change (Path.normalizeString false [] ("" :: "" :: Path.split p))
    with (Path.components p).
  rewrite H. reflexivity.
Qed.

Lemma read_of_root (p : string) (fs : Fs.node) :
  Path.components p = [] ->
  exists e, fst (FilesystemStorage.read p fs) = Throw e.
Proof.
  intros H. rewrite read_unfold, H, (join_rootDir_root p H).
  destruct fs; simpl; eauto.
Qed.

(** X1.  Deleting a file that can be read succeeds, and the file is
    gone: [read] of the same path then throws [ENOENT]. *)
Theorem delete_then_read_fails (path : string) (content : buffer)
  (fs : Fs.node) :
  FilesystemStorage.read path fs = (Return content, fs) ->
  exists fs',
    FilesystemStorage.delete path fs = (Return tt, fs')
    /\ FilesystemStorage.read path fs' = (Throw (ErrnoException ENOENT), fs').
Proof.
  intros Hread.
  assert (Path.components path <> []) as Hne.
  { intros E. destruct (read_of_root path fs E) as [e He].
    rewrite Hread in He. discriminate. }
  apply read_returns in Hread as [Hstat Htrail].
  destruct (remove_of_file _ _ _ Hne Hstat) as (fs' & Hrem & Hgone).
  exists fs'. rewrite delete_unfold, Hrem, Htrail, read_unfold, Hgone.
  split; reflexivity.
Qed.

Lemma delete_then_read_fails_witness :
  exists fs',
    FilesystemStorage.delete "test.txt"
      (snd (FilesystemStorage.write "test.txt" (Bytes "Hello, World!") Fs.empty))
    = (Return tt, fs')
    /\ FilesystemStorage.read "test.txt" fs'
       = (Throw (ErrnoException ENOENT), fs').
Proof.
  apply (delete_then_read_fails "test.txt" (Bytes "Hello, World!")).
  reflexivity.
Defined.

(** X2.  Where [read] throws, [delete] throws too and leaves the
    store as it was; for a path at which nothing is, the error is
    [ENOENT].  [delete] never removes a directory. *)
Theorem delete_of_unreadable_changes_nothing (path : string) (fs : Fs.node) :
  (forall e, fst (FilesystemStorage.read path fs) = Throw e ->
             exists e', FilesystemStorage.delete path fs = (Throw e', fs))
  /\ (Fs.stat (Path.components path) fs = Fs.Missing ->
      FilesystemStorage.delete path fs = (Throw (ErrnoException ENOENT), fs)).
Proof.
  split.
  - intros e He. rewrite read_unfold in He. rewrite delete_unfold.
    destruct (Fs.remove (Path.components path) fs) as [e0|fs'] eqn:Er; [eauto|].
    destruct (Path.trailingSeparator _) eqn:Et; [eauto|].
    exfalso.
    destruct (remove_of_no_file (Path.components path) fs) as (e1 & E1 & _).
    + intros content Hc. rewrite Hc in He. discriminate.
    + congruence.
  - intros Hmiss. rewrite delete_unfold.
    destruct (remove_of_no_file (Path.components path) fs) as (e1 & -> & He1).
    + intros content Hc. congruence.
    + now rewrite (He1 Hmiss).
Qed.



(** [store] needs a name to store under. *)
Lemma store_names_an_entry (segs : list string) (trailing : bool)
  (content : buffer) (fs fs' : Fs.node) :
  Fs.store segs trailing content fs = inr fs' -> segs <> [].
Proof. intros H ->. destruct fs; discriminate. Qed.

(** X5.  Where a [write] has returned, a second [write] to the same
    path returns too, and [read] then gives the second content: the
    last write wins. *)
Theorem write_overwrites (path : string) (first second : buffer)
  (fs fs1 : Fs.node) :
  FilesystemStorage.write path first fs = (Return tt, fs1) ->
  exists fs2,
    FilesystemStorage.write path second fs1 = (Return tt, fs2)
    /\ FilesystemStorage.read path fs2 = (Return second, fs2).
Proof.
  intros H. rewrite write_unfold in H.
  destruct (Fs.make_dirs _ fs) as [e|fs0]; [discriminate|].
  destruct (Fs.store _ _ first fs0) as [e|fs1'] eqn:Es; [discriminate|].
  inversion H; subst fs1'; clear H.
  pose proof (store_names_an_entry _ _ _ _ _ Es) as Hne.
  apply store_stat in Es as [Hthere Htrail].
  destruct (exists_last Hne) as (parent & leaf & E).
  assert (writable (parent ++ [leaf]) fs1) as Hw.
  { right. exists first. now rewrite <- E. }
  destruct (make_dirs_creates parent leaf fs1 Hw) as (fs1' & Hm & Hs & Hd).
  destruct (store_succeeds parent leaf second fs1' Hd) as (fs2 & Hst & _).
  { unfold writable. now rewrite Hs. }
  exists fs2. rewrite write_unfold, Htrail, E, removelast_last, Hm, Hst.
  split; [reflexivity|].
  apply store_stat in Hst as [Hst _].
  rewrite read_unfold, E, Hst, Htrail. reflexivity.
Qed.

Lemma write_overwrites_witness :
  exists fs2,
    FilesystemStorage.write "a/b/c.txt" (Bytes "second")
      (snd (FilesystemStorage.write "a/b/c.txt" (Bytes "first") Fs.empty))
    = (Return tt, fs2)
    /\ FilesystemStorage.read "a/b/c.txt" fs2 = (Return (Bytes "second"), fs2).
Proof.
  apply (write_overwrites "a/b/c.txt" (Bytes "first") (Bytes "second") Fs.empty).
  reflexivity.
Defined.

(** X6.  A file written below a prefix is listed under that prefix:
    after [write] of [prefix/rest] has returned, [list(prefix)] returns
    and the written path is in its result. *)
Theorem written_file_is_listed (ps q : list string) (content : buffer)
  (fs fs' : Fs.node) :
  Forall (fun seg => entry_name seg = true) ps -> ps <> [] ->
  Forall (fun seg => entry_name seg = true) q -> q <> [] ->
  FilesystemStorage.write (Path.render (ps ++ q)) content fs = (Return tt, fs') ->
  exists listed,
    FilesystemStorage.list (Path.render ps) fs' = (Return listed, fs')
    /\ In (Path.render (ps ++ q)) listed.
Proof.
  intros Hps Hpne Hq Hqne H. rewrite write_unfold in H.
  destruct (Fs.make_dirs _ fs) as [e|fs0]; [discriminate|].
  destruct (Fs.store _ _ content fs0) as [e|fs1] eqn:Es; [discriminate|].
  inversion H; subst fs1; clear H.
  apply store_stat in Es as [Hthere _].
  rewrite components_of_render in Hthere.
  2: { apply Forall_app. now split. }
  2: { intros E. apply app_eq_nil in E as [E _]. contradiction. }
  destruct (stat_prefix_is_dir ps q fs' Hqne) as [entries Hdir].
  { now rewrite Hthere. }
  rewrite (stat_below_dir _ q _ _ Hdir) in Hthere.
  eexists. split.
  - rewrite list_unfold, components_of_render, Hdir by assumption. reflexivity.
  - apply in_map_iff. exists (Path.render q). split.
    + rewrite list_entry_path by assumption. symmetry. now apply render_app.
    + apply listing_complete; [assumption|]. now rewrite Hthere.
Qed.

Lemma written_file_is_listed_witness :
  exists listed,
    FilesystemStorage.list "components/button"
      (snd (FilesystemStorage.write "components/button/index.ts"
              (Bytes "test content") Fs.empty))
    = (Return listed,
       snd (FilesystemStorage.write "components/button/index.ts"
              (Bytes "test content") Fs.empty))
    /\ In "components/button/index.ts" listed.
Proof.
  apply (written_file_is_listed ["components"; "button"] ["index.ts"]
           (Bytes "test content") Fs.empty);
    try discriminate; try reflexivity; repeat constructor.
Defined.



(* ===================================================================== *)
(** * The schemas return fixed points *)
(* ===================================================================== *)

Lemma schema_induction (P : Zod.schema -> Prop) :
  P Zod.ZString -> P Zod.ZNumber -> P Zod.ZBoolean -> P Zod.ZAny ->
  (forall values, P (Zod.ZEnum values)) ->
  (forall item, P item -> P (Zod.ZArray item)) ->
  (forall value, P value -> P (Zod.ZRecord value)) ->
  (forall shape, Forall (fun entry => P (snd (snd entry))) shape ->
                 P (Zod.ZObject shape)) ->
  forall z, P z.
Proof.
  intros Hs Hn Hb Ha He Harr Hrec Hobj.
  fix IH 1. intros [| | | |values|item|value|shape];
    [exact Hs | exact Hn | exact Hb | exact Ha | apply He
    | apply Harr, IH | apply Hrec, IH |].
  apply Hobj.
  induction shape as [|[key [optional zk]] rest IHrest]; constructor.
  - apply IH.
  - exact IHrest.
Qed.

Lemma all_some_map_fixed {A : Type} (f : A -> option A) (l out : list A) :
  Zod.all_some (map f l) = Some out ->
  (forall a b, In a l -> f a = Some b -> f b = Some b) ->
  Zod.all_some (map f out) = Some out /\ List.length out = List.length l.
Proof.
  revert out. induction l as [|a l IH]; simpl; intros out H Hf.
  - inversion H; subst. now split.
  - destruct (f a) as [b|] eqn:Ea; [|discriminate].
    destruct (Zod.all_some (map f l)) as [r|] eqn:Er; [|discriminate].
    inversion H; subst. destruct (IH r eq_refl) as [IH1 IH2]; [eauto|].
    simpl. rewrite (Hf a b), IH1, IH2 by auto. now split.
Qed.

(** [parse_shape] reads its input only at the keys of the shape. *)
Lemma parse_shape_ext (parse : Zod.schema -> json -> option json)
  (f1 f2 : list (string * json)) (shape : list (string * (bool * Zod.schema))) :
  (forall key, In key (map fst shape) -> field key f1 = field key f2) ->
  Zod.parse_shape parse f1 shape = Zod.parse_shape parse f2 shape.
Proof.
  induction shape as [|[key [optional zk]] rest IH]; intros H; simpl;
    [reflexivity|].
  rewrite (H key) by now left.
  rewrite IH; [reflexivity|]. intros k Hk. apply H. now right.
Qed.

(** A key that the shape does not declare is not in the output. *)
Lemma parse_shape_strips (parse : Zod.schema -> json -> option json)
  (fields out : list (string * json))
  (shape : list (string * (bool * Zod.schema))) (key : string) :
  Zod.parse_shape parse fields shape = Some out ->
  existsb (String.eqb key) (map fst shape) = false ->
  field key out = None.
Proof.
  revert out. induction shape as [|[k [optional zk]] rest IH];
    simpl; intros out H Hkey.
  - now inversion H; subst.
  - apply orb_false_iff in Hkey as [Hk Hrest].
    destruct (field k fields) as [v|].
    + destruct (parse zk v) as [v'|]; [|discriminate].
      destruct (Zod.parse_shape parse fields rest) as [r|]; [|discriminate].
      inversion H; subst. simpl. rewrite String.eqb_sym, Hk. now apply IH.
    + destruct optional; [now apply IH | discriminate].
Qed.

Lemma parse_shape_fixed (parse : Zod.schema -> json -> option json)
  (fields out : list (string * json))
  (shape : list (string * (bool * Zod.schema))) :
  Forall (fun entry =>
            forall v v', parse (snd (snd entry)) v = Some v' ->
                         parse (snd (snd entry)) v' = Some v') shape ->
  distinct (map fst shape) = true ->
  Zod.parse_shape parse fields shape = Some out ->
  Zod.parse_shape parse out shape = Some out.
Proof.
  revert out. induction shape as [|[k [optional zk]] rest IH];
    intros out Hfix Hd H.
  - simpl in H. now inversion H; subst.
  - inversion Hfix as [|? ? Hzk Hrest]; subst. simpl in Hzk.
    simpl in Hd. apply andb_prop in Hd as [Hk Hd].
    apply negb_true_iff in Hk.
    simpl in H. destruct (field k fields) as [v|].
    + destruct (parse zk v) as [v'|] eqn:Ev; [|discriminate].
      destruct (Zod.parse_shape parse fields rest) as [r|] eqn:Er;
        [|discriminate].
      inversion H; subst. simpl. rewrite String.eqb_refl, (Hzk _ _ Ev).
      rewrite (parse_shape_ext parse ((k, v') :: r) r).
      * now rewrite (IH r Hrest Hd eq_refl).
      * intros key Hin. simpl.
        destruct (String.eqb_spec k key) as [->|]; [|reflexivity].
        exfalso. apply not_true_iff_false in Hk. apply Hk.
        apply existsb_exists. exists key. split; [exact Hin|].
        apply String.eqb_refl.
    + destruct optional; [|discriminate].
      simpl. rewrite (parse_shape_strips _ _ _ _ _ H Hk).
      now apply IH.
Qed.

Lemma combine_fst_snd {A B : Type} (l : list (A * B)) (r : list B) :
  List.length r = List.length l ->
  map fst (combine (map fst l) r) = map fst l
  /\ map snd (combine (map fst l) r) = r.
Proof.
  revert r. induction l as [|[a b] l IH]; intros [|x r] H; try discriminate;
    simpl; [now split|].
  destruct (IH r) as [H1 H2]; [now inversion H|]. now rewrite H1, H2.
Qed.

(** What a schema with distinct keys returns, it accepts again as it
    is. *)
Lemma parse_fixed (z : Zod.schema) :
  distinct_keys z = true ->
  forall input out, Zod.parse z input = Some out -> Zod.parse z out = Some out.
Proof.
  induction z as [ | | | |values|item IH|value IH|shape IH]
    using schema_induction; intros Hd input out H.
  - destruct input; try discriminate. now inversion H; subst.
  - destruct input; try discriminate. now inversion H; subst.
  - destruct input; try discriminate. now inversion H; subst.
  - reflexivity.
  - destruct input as [| | |s| |]; try discriminate. simpl in H.
    destruct (existsb (String.eqb s) values) eqn:E; [|discriminate].
    inversion H; subst. simpl. now rewrite E.
  - destruct input as [| | | |items|]; try discriminate. simpl in H.
    destruct (Zod.all_some (map (Zod.parse item) items)) as [parsed|] eqn:E;
      [|discriminate].
    inversion H; subst. simpl.
    destruct (all_some_map_fixed _ _ _ E) as [-> _]; [|reflexivity].
    intros a b _. apply IH, Hd.
  - destruct input as [| | | | |fields]; try discriminate. simpl in H.
    destruct (Zod.all_some (map (fun kv => Zod.parse value (snd kv)) fields))
      as [parsed|] eqn:E; [|discriminate].
    inversion H; subst. simpl.
    rewrite <- (map_map snd (Zod.parse value)) in E.
    destruct (all_some_map_fixed _ _ _ E) as [Hfix Hlen].
    { intros a b _. apply IH, Hd. }
    rewrite length_map in Hlen.
    destruct (combine_fst_snd fields parsed Hlen) as [Hfst Hsnd].
    rewrite <- (map_map snd (Zod.parse value)), Hsnd, Hfix, Hfst.
    reflexivity.
  - destruct input as [| | | | |fields]; try discriminate. simpl in H.
    destruct (Zod.parse_shape Zod.parse fields shape) as [parsed|] eqn:E;
      [|discriminate].
    inversion H; subst. simpl in Hd. apply andb_prop in Hd as [Hkeys Hsub].
    simpl. rewrite (parse_shape_fixed Zod.parse fields parsed shape);
      [reflexivity | | exact Hkeys | exact E].
    rewrite forallb_forall in Hsub. rewrite Forall_forall in IH |- *.
    intros entry Hin v v'. apply IH; auto.
Qed.

(** X7.  What a schema of [types/component.ts] or
    [types/manager.ts] returns, it accepts again unchanged: a parsed
    value is a fixed point of [parse]. *)
Theorem declared_schemas_return_fixed_points (z : Zod.schema)
  (input out : json) :
  In z declared_schemas ->
  Zod.parse z input = Some out ->
  Zod.parse z out = Some out.
Proof.
  intros Hz. apply parse_fixed.
  unfold declared_schemas in Hz. simpl in Hz.
  repeat (destruct Hz as [<-|Hz]; [reflexivity|]). contradiction.
Qed.

Lemma declared_schemas_return_fixed_points_witness :
  Zod.parse Types.ComponentSchema
    (JObj [("metadata",
            JObj [("name", JStr "button"); ("version", JStr "1.0.0")]);
           ("files", JArr [])])
  = Some (JObj [("metadata",
                 JObj [("name", JStr "button"); ("version", JStr "1.0.0")]);
                ("files", JArr [])]).
Proof.
  apply (declared_schemas_return_fixed_points Types.ComponentSchema
           annotated_button).
  - simpl. auto.
  - reflexivity.
Defined.

(* ===================================================================== *)
(** * The answers of the registry *)
(* ===================================================================== *)

Lemma ends_in_ret {A : Type} (E : exn -> Prop) (Q : A -> Prop) (a : A) :
  Q a -> ends_in E Q (Fs.ret a).
Proof. intros H fs. exact H. Qed.

Lemma ends_in_throw {A : Type} (E : exn -> Prop) (Q : A -> Prop) (e : exn) :
  E e -> ends_in E Q (Fs.throw e).
Proof. intros H fs. exact H. Qed.

Lemma ends_in_bind {A B : Type} (E : exn -> Prop) (Q : B -> Prop)
  (m : Fs.IO A) (k : A -> Fs.IO B) :
  ends_in E (fun _ => True) m ->
  (forall a, ends_in E Q (k a)) ->
  ends_in E Q (Fs.bind m k).
Proof.
  intros Hm Hk fs. unfold Fs.bind. specialize (Hm fs).
  destruct (m fs) as [[a|e] fs']; [apply Hk | exact Hm].
Qed.

Lemma ends_in_try_catch {A : Type} (E : exn -> Prop) (Q : A -> Prop)
  (m : Fs.IO A) (h : exn -> Fs.IO A) :
  ends_in E Q m ->
  (forall e, E e -> ends_in E Q (h e)) ->
  ends_in E Q (Fs.try_catch m h).
Proof.
  intros Hm Hh fs. unfold Fs.try_catch. specialize (Hm fs).
  destruct (m fs) as [[a|e] fs']; [exact Hm | now apply Hh].
Qed.

Lemma ends_in_for_of {A B : Type} (E : exn -> Prop) (xs : list A) (acc : B)
  (body : B -> A -> Fs.IO B) :
  (forall b a, ends_in E (fun _ => True) (body b a)) ->
  ends_in E (fun _ => True) (ComponentsController.for_of xs acc body).
Proof.
  intros Hb. revert acc. induction xs as [|x xs IH]; intros acc; simpl.
  - now apply ends_in_ret.
  - apply ends_in_bind; [apply Hb | intros; apply IH].
Qed.

Lemma handled_errno (r : App.route) (c : errno) : handled r (ErrnoException c).
Proof. destruct r; unfold handled; simpl; auto. Qed.

Lemma handled_ZodError (r : App.route) : handled r ZodError.
Proof. destruct r; unfold handled; simpl; auto. Qed.

Lemma handled_SyntaxError (r : App.route) : handled r SyntaxError.
Proof. destruct r; unfold handled; simpl; auto. Qed.

Lemma handled_TypeError (r : App.route) : handled r TypeError.
Proof. destruct r; unfold handled; simpl; auto. Qed.

Lemma ends_in_read (r : App.route) (path : string) :
  ends_in (handled r) (fun _ => True) (FilesystemStorage.read path).
Proof.
  intros fs. rewrite read_unfold. cbn [fst].
  destruct (Fs.stat _ fs); try apply handled_errno.
  destruct (Path.trailingSeparator _); [apply handled_errno | exact I].
Qed.

Lemma ends_in_list (r : App.route) (prefix : string) :
  ends_in (handled r) (fun _ => True) (FilesystemStorage.list prefix).
Proof.
  intros fs. rewrite list_unfold. cbn [fst].
  destruct (Fs.stat _ fs); try apply handled_errno; exact I.
Qed.

Lemma ends_in_write (r : App.route) (path : string) (content : buffer) :
  ends_in (handled r) (fun _ => True) (FilesystemStorage.write path content).
Proof.
  intros fs. rewrite write_unfold.
  destruct (Fs.make_dirs _ fs); [apply handled_errno|].
  destruct (Fs.store _ _ _ _); [apply handled_errno | exact I].
Qed.

Lemma ends_in_zod_parse (r : App.route) (z : Zod.schema) (value : json) :
  ends_in (handled r) (fun _ => True) (ComponentsController.zod_parse z value).
Proof.
  intros fs. unfold ComponentsController.zod_parse.
  destruct (Zod.parse z value); [exact I | apply handled_ZodError].
Qed.

Lemma ends_in_JSON_parse (r : App.route) (data : buffer) :
  ends_in (handled r) (fun _ => True) (Fs.lift (JSON_parse data)).
Proof. intros fs. destruct data; [exact I | apply handled_SyntaxError]. Qed.

Lemma ends_in_prop (r : App.route) (v : option json) (key : string) :
  ends_in (handled r) (fun _ => True) (Fs.lift (prop v key)).
Proof.
  intros fs. destruct v as [[]|]; try exact I; apply handled_TypeError.
Qed.

Lemma ends_in_rethrow {A : Type} (r : App.route) (Q : A -> Prop) (b : bool)
  (e : exn) (m : Fs.IO A) :
  handled r e -> ends_in (handled r) Q m ->
  ends_in (handled r) Q (if b then Fs.throw e else m).
Proof. intros He Hm. destruct b; [now apply ends_in_throw | exact Hm]. Qed.

Ltac contract_step :=
  lazymatch goal with
  | |- ends_in _ _ (Fs.bind _ _) => apply ends_in_bind; [|intros]
  | |- ends_in _ _ (Fs.try_catch _ _) => apply ends_in_try_catch; [|intros]
  | |- ends_in _ _ (ComponentsController.for_of _ _ _) =>
      apply ends_in_for_of; intros
  | |- ends_in _ _ (Fs.ret _) => apply ends_in_ret
  | |- ends_in _ _ (Fs.throw _) => apply ends_in_throw
  | |- ends_in _ _ (if _ then Fs.throw _ else _) => apply ends_in_rethrow
  | |- ends_in _ _ (if ?b then _ else _) => destruct b
  | |- ends_in _ _ (FilesystemStorage.read _) => apply ends_in_read
  | |- ends_in _ _ (FilesystemStorage.list _) => apply ends_in_list
  | |- ends_in _ _ (FilesystemStorage.write _ _) => apply ends_in_write
  | |- ends_in _ _ (ComponentsController.zod_parse _ _) =>
      apply ends_in_zod_parse
  | |- ends_in _ _ (Fs.lift (JSON_parse _)) => apply ends_in_JSON_parse
  | |- ends_in _ _ (Fs.lift (prop _ _)) => apply ends_in_prop
  | |- handled _ (ErrnoException _) => apply handled_errno
  | |- handled _ _ => first [assumption | unfold handled; simpl; tauto]
  | |- True => exact I
  | |- succeeds _ _ => eexists; reflexivity
  end.

(** A handler that ends in a success or a handled exception, followed
    by the error middleware, answers by the contract. *)
Lemma try_catch_next (r : App.route) (m : Fs.IO Response) (fs : Fs.node) :
  ends_in (handled r) (succeeds r) m ->
  exists response fs',
    Fs.try_catch m App.next fs = (Return response, fs')
    /\ contract r response.
Proof.
  intros H. unfold Fs.try_catch. specialize (H fs).
  destruct (m fs) as [[response|e] fs']; simpl in H.
  - exists response, fs'. split; [reflexivity | now left].
  - exists (errorHandler e), fs'. split; [reflexivity | now right].
Qed.

(** X8.  The registry answers every request: no exception leaves
    a handler.  The answer is the success of the route (201 for
    [POST /components], 200 for the others, with a JSON body) or one of
    the error responses of the route: 400 [VALIDATION_ERROR] and 500
    [INTERNAL_ERROR] on every route, 409 [VERSION_CONFLICT] on
    [POST /components] only, 404 [COMPONENT_NOT_FOUND] on
    [GET /components/:name] only, 404 [VERSION_NOT_FOUND] on
    [GET /components/:name/versions/:version] only. *)
Theorem app_answers_by_contract (now : string) (r : App.route)
  (req : Request) (fs : Fs.node) :
  exists response fs',
    App.app now r req fs = (Return response, fs') /\ contract r response.
Proof.
  destruct r; cbn [App.app].
  - apply try_catch_next.
    unfold App.controller_list, ComponentsController.list. inject_storage.
    cbv zeta. repeat contract_step.
  - unfold App.validateComponent.
    destruct (Zod.parse Types.ComponentSchema (req_body req)).
    + apply try_catch_next.
      unfold App.controller_create, ComponentsController.create.
      inject_storage. repeat contract_step.
    + exists validation_error, fs. split; [reflexivity|]. right. simpl. auto.
  - apply try_catch_next.
    unfold App.controller_getDetails, ComponentsController.getDetails.
    inject_storage. cbv zeta. repeat contract_step.
  - apply try_catch_next.
    unfold App.controller_getVersion, ComponentsController.getVersion.
    inject_storage. cbv zeta. repeat contract_step.
Qed.

(* ===================================================================== *)
(** * Publishing *)
(* ===================================================================== *)

(** [write] at a path where nothing is succeeds, and the content can
    be read back. *)
Lemma write_at_missing (path : string) (content : buffer) (fs : Fs.node) :
  Fs.stat (Path.components path) fs = Fs.Missing ->
  Path.trailingSeparator (Path.join FilesystemStorage.rootDir path) = false ->
  exists fs',
    FilesystemStorage.write path content fs = (Return tt, fs')
    /\ FilesystemStorage.read path fs' = (Return content, fs').
Proof.
  intros Hmiss Htrail.
  assert (Path.components path <> []) as Hne.
  { intros E. rewrite E in Hmiss. destruct fs; discriminate. }
  destruct (exists_last Hne) as (parent & leaf & E).
  assert (writable (parent ++ [leaf]) fs) as Hw.
  { left. now rewrite <- E. }
  destruct (make_dirs_creates parent leaf fs Hw) as (fs1 & Hm & Hs & Hd).
  destruct (store_succeeds parent leaf content fs1 Hd) as (fs2 & Hst & _).
  { unfold writable. now rewrite Hs. }
  exists fs2. rewrite write_unfold, Htrail, E, removelast_last, Hm, Hst.
  split; [reflexivity|].
  apply store_stat in Hst as [Hst _].
  rewrite read_unfold, E, Hst, Htrail. reflexivity.
Qed.

(** The three ways [create] ends once the body has passed
    [ComponentSchema]: the manifest is there, nothing is there, or the
    path cannot be read. *)
Lemma create_outcome (req : Request) (component : json) (name version : string)
  (fs : Fs.node) :
  Zod.parse Types.ComponentSchema (req_body req) = Some component ->
  declares (req_body req) name version ->
  (App.controller_create req App.next fs = (Return version_conflict, fs)
   /\ exists manifest,
        FilesystemStorage.read
          (ComponentsController.manifest_path name version) fs
        = (Return manifest, fs))
  \/ (exists fs',
         App.controller_create req App.next fs
         = (Return {| status := 201; body := Data component |}, fs')
         /\ FilesystemStorage.read
              (ComponentsController.manifest_path name version) fs'
            = (Return (JSON_stringify component), fs'))
  \/ App.controller_create req App.next fs = (Return internal_error, fs).
Proof.
  intros Hparse Hdecl. rewrite (create_unfold _ _ _ _ _ Hparse Hdecl).
  pose proof (manifest_path_no_trailing name version) as Htrail.
  rewrite read_unfold, Htrail.
  destruct (Fs.stat _ fs) as [manifest|entries| |] eqn:Es.
  - left. split; [reflexivity|]. now exists manifest.
  - right. right. reflexivity.
  - right. left.
    destruct (write_at_missing _ (JSON_stringify component) fs Es Htrail)
      as (fs' & -> & Hread).
    now exists fs'.
  - right. right. reflexivity.
Qed.

(** X9.  The three [GET] routes leave the store exactly as it
    was, whatever they answer. *)
Theorem get_routes_leave_the_store_unchanged (now : string) (r : App.route)
  (req : Request) (fs : Fs.node) :
  r <> App.POST_components ->
  snd (App.app now r req fs) = fs.
Proof.
  intros Hr. destruct r; cbn [App.app].
  - apply read_only_ComponentsController_list.
  - congruence.
  - apply read_only_getDetails.
  - apply read_only_getVersion.
Qed.

Lemma get_routes_leave_the_store_unchanged_witness :
  snd (App.app "" App.GET_component (App.details_request "button") button_store)
  = button_store.
Proof.
  apply (get_routes_leave_the_store_unchanged "" App.GET_component).
  discriminate.
Defined.


(** X11.  [POST /components] is all or nothing: it answers 201
    with the parsed component and the store then holds the component's
    JSON text at its manifest path, or it answers something else and
    the store is unchanged. *)
Theorem publish_is_all_or_nothing (now : string) (req : Request)
  (fs fs' : Fs.node) (response : Response) :
  App.app now App.POST_components req fs = (Return response, fs') ->
  (exists component name version,
      Zod.parse Types.ComponentSchema (req_body req) = Some component
      /\ declares (req_body req) name version
      /\ response = {| status := 201; body := Data component |}
      /\ FilesystemStorage.read
           (ComponentsController.manifest_path name version) fs'
         = (Return (JSON_stringify component), fs'))
  \/ (status response <> 201%Z /\ fs' = fs).
Proof.
  cbn [App.app]. unfold App.validateComponent.
  destruct (Zod.parse Types.ComponentSchema (req_body req))
    as [component|] eqn:Hparse.
  - destruct (parse_component _ _ Hparse) as (name & version & _ & _ & Hd & _).
    destruct (create_outcome req component name version fs Hparse Hd)
      as [[E _]|[(fs1 & E & Hread)|E]]; rewrite E; intros H; inversion H; subst.
    + right. split; [discriminate | reflexivity].
    + left. exists component, name, version. auto.
    + right. split; [discriminate | reflexivity].
  - intros H. inversion H; subst. right. split; [discriminate | reflexivity].
Qed.

Lemma publish_is_all_or_nothing_witness :
  (exists component name version,
      Zod.parse Types.ComponentSchema
        (req_body (App.publish_request button_1_0_0)) = Some component
      /\ declares (req_body (App.publish_request button_1_0_0)) name version
      /\ {| status := 201; body := Data button_1_0_0 |}
         = {| status := 201; body := Data component |}
      /\ FilesystemStorage.read
           (ComponentsController.manifest_path name version) button_store
         = (Return (JSON_stringify component), button_store))
  \/ (status {| status := 201; body := Data button_1_0_0 |} <> 201%Z
      /\ button_store = Fs.empty).
Proof.
  apply (publish_is_all_or_nothing "" (App.publish_request button_1_0_0)
           Fs.empty).
  reflexivity.
Defined.

(** X12.  What was published is served: after
    [POST /components] has answered 201 with a component,
    [GET /components/:name/versions/:version] of the declared name and
    version answers 200 with the same component, and publishing the
    same body again answers 409 [VERSION_CONFLICT] and leaves the store
    unchanged. *)
Theorem published_version_is_served (now later : string) (req : Request)
  (fs fs' : Fs.node) (component : json) (name version : string) :
  App.app now App.POST_components req fs
  = (Return {| status := 201; body := Data component |}, fs') ->
  declares (req_body req) name version ->
  App.app later App.GET_component_version (App.version_request name version) fs'
  = (Return {| status := 200; body := Data component |}, fs')
  /\ App.app later App.POST_components req fs' = (Return version_conflict, fs').
Proof.
  intros Hpost Hdecl. cbn [App.app] in *. unfold App.validateComponent in *.
  destruct (Zod.parse Types.ComponentSchema (req_body req))
    as [parsed|] eqn:Hparse; [|discriminate].
  assert (parsed = component
          /\ FilesystemStorage.read
               (ComponentsController.manifest_path name version) fs'
             = (Return (JSON_stringify component), fs')) as [-> Hread].
  { destruct (create_outcome req parsed name version fs Hparse Hdecl)
      as [[E _]|[(fs1 & E & Hread)|E]]; rewrite E in Hpost;
      try discriminate.
    inversion Hpost; subst. auto. }
  split.
  - rewrite getVersion_unfold. cbn [App.version_request params_name params_version].
    apply read_returns in Hread as [-> _]. unfold JSON_stringify.
    now rewrite (parse_fixed Types.ComponentSchema eq_refl _ _ Hparse).
  - rewrite (create_unfold _ _ _ _ _ Hparse Hdecl), Hread. reflexivity.
Qed.

Lemma published_version_is_served_witness :
  App.app "later" App.GET_component_version
    (App.version_request "button" "1.0.0") button_store
  = (Return {| status := 200; body := Data button_1_0_0 |}, button_store)
  /\ App.app "later" App.POST_components (App.publish_request button_1_0_0)
       button_store
     = (Return version_conflict, button_store).
Proof.
  apply (published_version_is_served "" "later"
           (App.publish_request button_1_0_0) Fs.empty).
  - reflexivity.
  - exists [("metadata",
             JObj [("name", JStr "button"); ("version", JStr "1.0.0");
                   ("description", JStr "A test button component")]);
            ("files",
             JArr [JObj [("path", JStr "index.ts");
                         ("content", JStr "export const Button = () => {}");
                         ("type", JStr "typescript")]])],
           [("name", JStr "button"); ("version", JStr "1.0.0");
            ("description", JStr "A test button component")].
    repeat split.
Defined.

(* ===================================================================== *)
(** * The handlers over any storage provider *)
(* ===================================================================== *)

Lemma all_some_length {A : Type} (l : list (option A)) (out : list A) :
  Zod.all_some l = Some out -> List.length out = List.length l.
Proof.
  revert out. induction l as [|[a|] l IH]; simpl; intros out H;
    [now inversion H; subst | | discriminate].
  destruct (Zod.all_some l) as [r|]; [|discriminate].
  inversion H; subst. simpl. now rewrite (IH r).
Qed.

(** [slice(start, start + n)] has at most [n] elements, and never
    more than the array. *)
Lemma slice_length {A : Type} (l : list A) (start n : Z) :
  (List.length (slice l start (start + n)) <= List.length l)%nat
  /\ (0 <= n -> Z.of_nat (List.length (slice l start (start + n))) <= n)%Z.
Proof.
  unfold slice. rewrite length_firstn, length_skipn.
  split; [lia|]. intros Hn.
  destruct (start <? 0)%Z eqn:Es; destruct (start + n <? 0)%Z eqn:Ef; lia.
Qed.

Lemma errorHandler_is_no_success (e : exn) : status (errorHandler e) <> 200%Z.
Proof.
  destruct e as [|code message| | |]; simpl; try discriminate.
  repeat match goal with
         | |- context [if ?b then _ else _] => destruct b
         end; discriminate.
Qed.

(** What [ComponentListResponseSchema] makes of the object [list]
    builds. *)
Lemma list_response (components : list json) (total page pageSize : Z)
  (response : json) :
  Zod.parse Types.ComponentListResponseSchema
    (obj [("components", Some (JArr components));
          ("total", Some (JNum total));
          ("page", Some (JNum page));
          ("pageSize", Some (JNum pageSize))]) = Some response ->
  exists parsed,
    response = JObj [("components", JArr parsed); ("total", JNum total);
                     ("page", JNum page); ("pageSize", JNum pageSize)]
    /\ List.length parsed = List.length components.
Proof.
  unfold Types.ComponentListResponseSchema, obj.
  cbn [defined Zod.parse Zod.parse_shape field String.eqb Ascii.eqb Bool.eqb
       Zod.required Zod.optional].
  destruct (Zod.all_some _) as [parsed|] eqn:E; [|discriminate].
  intros H. inversion H; subst. exists parsed. split; [reflexivity|].
  apply all_some_length in E. now rewrite length_map in E.
Qed.

(** X13.  Whatever the storage provider, a 200 answer of
    [GET /components] has [components], [total], [page] and [pageSize];
    [components] holds at most [total] entries and, for a [pageSize]
    that is not negative, at most [pageSize] entries; [page] and
    [pageSize] are never 0 (0 and unreadable values fall back to 1 and
    10). *)
Theorem page_holds_at_most_pageSize (storage : Storage.StorageProvider)
  (req : Request) (fs fs' : Fs.node) (response : Response) :
  ComponentsController.list storage req App.next fs = (Return response, fs') ->
  status response = 200%Z ->
  exists components total page pageSize,
    body response
    = Data (JObj [("components", JArr components); ("total", JNum total);
                  ("page", JNum page); ("pageSize", JNum pageSize)])
    /\ (Z.of_nat (List.length components) <= total)%Z
    /\ (0 <= pageSize -> Z.of_nat (List.length components) <= pageSize)%Z
    /\ page <> 0%Z /\ pageSize <> 0%Z.
Proof.
  unfold ComponentsController.list, Fs.try_catch. cbv zeta.
  match goal with
  | |- context [match ?m fs with _ => _ end] => destruct (m fs) as [[r|e] fs1] eqn:E
  end.
  2: { intros H Hs. inversion H; subst.
       now destruct (errorHandler_is_no_success e). }
  intros H _. inversion H; subst r fs1. clear H.
  unfold Fs.bind in E.
  destruct (Storage.list storage "components" fs) as [[dirs|e] fs1];
    [|discriminate].
  match type of E with
  | context [ComponentsController.for_of ?xs ?acc ?body fs1] =>
      destruct (ComponentsController.for_of xs acc body fs1)
        as [[components|e] fs2]; [|discriminate]
  end.
  unfold ComponentsController.zod_parse in E.
  match type of E with
  | context [Zod.parse ?z ?v] => destruct (Zod.parse z v) as [parsed|] eqn:Ep
  end; [|discriminate].
  inversion E; subst. clear E.
  apply list_response in Ep as (items & -> & Hlen).
  exists items. eexists. eexists. eexists. split; [reflexivity|].
  rewrite Hlen.
  match goal with
  | |- context [slice components ?s (?s + ?n)] =>
      pose proof (slice_length components s n) as [Hall Hpage]
  end.
  repeat split.
  - lia.
  - exact Hpage.
  - unfold parseInt_or. destruct (parseInt (query_page req)) as [n|];
      [destruct (n =? 0)%Z eqn:En; [discriminate | now apply Z.eqb_neq] | discriminate].
  - unfold parseInt_or. destruct (parseInt (query_pageSize req)) as [n|];
      [destruct (n =? 0)%Z eqn:En; [discriminate | now apply Z.eqb_neq] | discriminate].
Qed.

Lemma page_holds_at_most_pageSize_witness :
  exists components total page pageSize,
    body {| status := 200;
            body :=
              Data (JObj [("components",
                           JArr [JObj [("name", JStr "button");
                                       ("latestVersion", JStr "1.0.0");
                                       ("description",
                                        JStr "A test button component")]]);
                          ("total", JNum 2); ("page", JNum 2);
                          ("pageSize", JNum 1)]) |}
    = Data (JObj [("components", JArr components); ("total", JNum total);
                  ("page", JNum page); ("pageSize", JNum pageSize)])
    /\ (Z.of_nat (List.length components) <= total)%Z
    /\ (0 <= pageSize -> Z.of_nat (List.length components) <= pageSize)%Z
    /\ page <> 0%Z /\ pageSize <> 0%Z.
Proof.
  apply (page_holds_at_most_pageSize two_versions
           (App.list_request (Some "2") (Some "1")) Fs.empty Fs.empty);
    reflexivity.
Defined.




